(** * Predicting diabetes risk: class balancing, scaling, evaluation,
      model search and permutation importance

    A shallow embedding of the computational steps of
    [predicting_diabetes_risk.py].  The notebook is a straight-line
    composition of pandas, numpy, scikit-learn, keras-tuner and eli5
    calls; each call is embedded with the behaviour its library
    documents, and the notebook's own data flow (which frame is
    filtered, which one is sampled, what is fitted before what is
    split) is transcribed line by line.

    Numbers: a float cell is represented by the rational it denotes
    ([Q]); the label column [Diabetes_binary] holds the integral
    values 0.0 and 1.0 and is represented by [Z]. *)

From Stdlib Require Import String DecimalString.
From Stdlib Require Import List ZArith QArith Qround Qminmax Qabs Lia Lqa Permutation Sorted Bool Arith PeanoNat.
Import ListNotations.

Close Scope Q_scope.
Open Scope nat_scope.

(** ** The data frame *)

(** One row of [data]: the label column and the remaining columns. *)
Record Row : Type := mkRow {
  Diabetes_binary : Z;
  features : list Q
}.

Definition Dataset := list Row.

(** [data[data['Diabetes_binary'] == c]]: boolean-mask selection keeps
    the matching rows in their original order. *)
Definition select_label (c : Z) (data : Dataset) : Dataset :=
  filter (fun r => Diabetes_binary r =? c)%Z data.

(** [data['Diabetes_binary'].value_counts()[c]] *)
Definition class_count (c : Z) (data : Dataset) : nat :=
  length (select_label c data).

(** [X = data.drop(['Diabetes_binary'], axis=1)] and
    [y = data['Diabetes_binary']] *)
Definition drop_label (data : Dataset) : list (list Q) := map features data.
Definition label_column (data : Dataset) : list Z := map Diabetes_binary data.

(** ** The random source

    [numpy.random.RandomState] as an interface: the generator state is
    threaded explicitly.  [choice g a n] is [rng.choice(a, size=n)]
    (draws with replacement from [range(a)]), [permutation g n] is
    [rng.permutation(n)].  The two contracts are the ones numpy
    documents: every draw is an index below [a], and a permutation of
    [n] is a rearrangement of [0..n-1]. *)
Class RandomState : Type := {
  rng : Type;
  RandomState_seed : Z -> rng;
  choice : rng -> nat -> nat -> list nat * rng;
  permutation : rng -> nat -> list nat * rng;
  choice_length : forall g a n, length (fst (choice g a n)) = n;
  choice_range : forall g a n, 0 < a ->
      Forall (fun i => i < a) (fst (choice g a n));
  permutation_spec : forall g n, Permutation (fst (permutation g n)) (seq 0 n)
}.

(** A generator driven by a tape of raw draws: every finite sequence of
    in-range indices is the outcome of [choice] for a suitable tape.
    It is the concrete generator at which the development is run. *)
Definition tape_draws (g : list nat) (n : nat) : list nat :=
  firstn n (g ++ repeat 0 n).

Definition tape_choice (g : list nat) (a n : nat) : list nat * list nat :=
  (map (fun r => r mod a) (tape_draws g n), skipn n g).

(** A permutation of [n] positions is drawn by ranking them along the
    next [n] draws (the position with the smallest draw comes first). *)
Fixpoint insert_key (k : nat * nat) (l : list (nat * nat)) : list (nat * nat) :=
  match l with
  | [] => [k]
  | h :: t => if fst k <=? fst h then k :: l else h :: insert_key k t
  end.

Definition argsort (keys : list nat) : list nat :=
  map snd (fold_right insert_key [] (combine keys (seq 0 (length keys)))).

Definition tape_permutation (g : list nat) (n : nat) : list nat * list nat :=
  (argsort (tape_draws g n), skipn n g).

(** The tape a seed stands for: the output of a small linear
    congruential generator started at the seed.  Its constants are
    such that seed 123 orders five rows as numpy's [RandomState(123)]
    does, [permutation(5) = [1, 3, 4, 0, 2]]. *)
Fixpoint lcg_stream (x : nat) (n : nat) : list nat :=
  match n with
  | 0 => []
  | S k => let x' := (22 * x + 1) mod 31 in x' :: lcg_stream x' k
  end.

Definition tape_seed (s : Z) : list nat :=
  lcg_stream (Z.to_nat s mod 31) 64.

(** ** pandas and numpy indexing *)

(** [df.take(locs)] / [X[locs]]: positional selection; an index out of
    range raises [IndexError]. *)
Fixpoint take {A : Type} (df : list A) (locs : list nat) : option (list A) :=
  match locs with
  | [] => Some []
  | i :: locs' =>
      match nth_error df i, take df locs' with
      | Some r, Some rs => Some (r :: rs)
      | _, _ => None
      end
  end.

(** [df.sample(n, replace=True)]: [n] positions drawn by
    [rng.choice(len(df), size=n)], then [take].  Drawing from an empty
    frame raises unless no sample is requested. *)
Definition sample `{RandomState} (g : rng) (df : Dataset) (n : nat)
  : option (Dataset * rng) :=
  match df, n with
  | [], S _ => None
  | _, _ =>
      let (locs, g') := choice g (length df) n in
      match take df locs with
      | Some rows => Some (rows, g')
      | None => None
      end
  end.

(** ** Class balancing (source lines 142-146)

    [diabetes_group = data[data['Diabetes_binary']==1]]
    [nodiabetes_group = data[data['Diabetes_binary']==0]]
    [diabetes_group_oversampled =
       diabetes_group.sample(len(nodiabetes_group), replace=True)]
    [data_oversampled =
       pd.concat([diabetes_group_oversampled, nodiabetes_group], axis=0)] *)
Definition diabetes_group (data : Dataset) : Dataset := select_label 1 data.
Definition nodiabetes_group (data : Dataset) : Dataset := select_label 0 data.

Definition balance `{RandomState} (g : rng) (data : Dataset)
  : option (Dataset * rng) :=
  match sample g (diabetes_group data) (length (nodiabetes_group data)) with
  | Some (diabetes_group_oversampled, g') =>
      Some (diabetes_group_oversampled ++ nodiabetes_group data, g')
  | None => None
  end.

(** The balancing algorithm in the words of the specification: the two
    partitions ordered by ascending size, [len(majority)] draws from
    the minority, concatenated with the majority. *)
Definition balance_spec `{RandomState} (g : rng) (data : Dataset)
  : option (Dataset * rng) :=
  let p1 := select_label 1 data in
  let p0 := select_label 0 data in
  let (minority, majority) :=
    if length p1 <=? length p0 then (p1, p0) else (p0, p1) in
  match sample g minority (length majority) with
  | Some (resampled, g') => Some (resampled ++ majority, g')
  | None => None
  end.

(** ** Feature scaling and the train/test split (source lines 63-67,
       164-167, 288-290) *)

Fixpoint zip_with {A B C : Type} (f : A -> B -> C) (xs : list A) (ys : list B)
  : list C :=
  match xs, ys with
  | x :: xs', y :: ys' => f x y :: zip_with f xs' ys'
  | _, _ => []
  end.

Module MinMaxScaler.

(** The fitted state of [sklearn.preprocessing.MinMaxScaler()] with the
    default [feature_range=(0, 1)]: the per-column minimum and maximum
    seen by [fit].  The arithmetic is that of the rationals the cells
    denote; the rounding of each float64 product and sum is not
    modelled, so what is proved below is about which rows and which
    fitted parameters enter a result, and concrete values are taken
    where the float computation is exact. *)
Record t : Type := mk {
  data_min_ : list Q;
  data_max_ : list Q
}.

(** A constant column has range 0; the scaler divides by 1 instead. *)
Definition handle_zeros_in_scale (r : Q) : Q :=
  if Qeq_bool r 0 then 1%Q else r.

(** [fit(X)]: column-wise [min] and [max] over every row of [X]; a
    matrix with no row or with no column is rejected (the input check
    asks for at least one sample and at least one feature). *)
Definition fit (X : list (list Q)) : option t :=
  match X with
  | [] => None
  | row :: rows =>
      if length row =? 0 then None
      else
        Some {| data_min_ := fold_left (zip_with Qmin) rows row;
                data_max_ := fold_left (zip_with Qmax) rows row |}
  end.

(** [scale_ = 1 / data_range_] and [min_ = 0 - data_min_ * scale_] *)
Definition scale_ (s : t) : list Q :=
  zip_with (fun lo hi => (1 / handle_zeros_in_scale (hi - lo))%Q)
           (data_min_ s) (data_max_ s).

Definition min_ (s : t) : list Q :=
  zip_with (fun lo sc => (0 - lo * sc)%Q) (data_min_ s) (scale_ s).

(** [transform(X)]: [X * scale_ + min_], row by row. *)
Definition transform_row (s : t) (row : list Q) : list Q :=
  zip_with (fun x sm => (x * fst sm + snd sm)%Q) row
           (combine (scale_ s) (min_ s)).

Definition transform (s : t) (X : list (list Q)) : list (list Q) :=
  map (transform_row s) X.

(** [MinMaxScaler().fit_transform(X)] *)
Definition fit_transform (X : list (list Q)) : option (list (list Q)) :=
  match fit X with
  | Some s => Some (transform s X)
  | None => None
  end.

End MinMaxScaler.

(** [train_test_split(X, y, test_size=0.20, random_state=123)]:
    [n_test = ceil(0.2 * n)], [n_train = n - n_test] (an empty training
    set is rejected); the rows are taken along one permutation drawn by
    a generator seeded with 123, the first [n_test] positions being the
    test rows.  The result is [(X_train, X_test, y_train, y_test)]. *)
Definition n_test_of (n : nat) : nat := (n + 4) / 5.

Definition split_indices `{RandomState} (n : nat) : list nat * list nat :=
  let n_test := n_test_of n in
  let n_train := n - n_test in
  let perm := fst (permutation (RandomState_seed 123) n) in
  (firstn n_train (skipn n_test perm), firstn n_test perm).

Definition train_test_split `{RandomState} {A B : Type}
  (X : list A) (y : list B) : option (list A * list A * list B * list B) :=
  let n := length X in
  if negb (length y =? n) then None
  else if n - n_test_of n =? 0 then None
  else
    let (ind_train, ind_test) := split_indices n in
    match take X ind_train, take X ind_test,
          take y ind_train, take y ind_test with
    | Some X_train, Some X_test, Some y_train, Some y_test =>
        Some (X_train, X_test, y_train, y_test)
    | _, _, _, _ => None
    end.

(** Lines 63-67 (and 164-167 on the oversampled frame):
    [X = data.drop(['Diabetes_binary'],axis=1)]
    [X_sc = MinMaxScaler().fit_transform(X)]
    [y = data['Diabetes_binary']]
    [X_train, X_test, y_train, y_test =
       train_test_split(X_sc, y, test_size=0.20, random_state=123)] *)
Definition prepare `{RandomState} (data : Dataset)
  : option (list (list Q) * list (list Q) * list Z * list Z) :=
  let X := drop_label data in
  match MinMaxScaler.fit_transform X with
  | Some X_sc => train_test_split X_sc (label_column data)
  | None => None
  end.

(** The scaling contract in the words of the specification:
    [scale(dataset, fit_on)] with min/max computed from [fit_on] only. *)
Definition scale_spec (dataset fit_on : list (list Q)) : option (list (list Q)) :=
  match MinMaxScaler.fit fit_on with
  | Some s => Some (MinMaxScaler.transform s dataset)
  | None => None
  end.

(** Cell-wise equality of two matrices of floats. *)
Definition matrix_eq (X X' : list (list Q)) : Prop :=
  Forall2 (Forall2 Qeq) X X'.

(** ** Evaluation: the confusion matrix (source lines 121-122, 210-211,
       332-333) *)

(** [np.round(x)]: the nearest integer, a value exactly halfway between
    two integers going to the even one. *)
Definition np_round (x : Q) : Z :=
  let f := Qfloor x in
  match (x - inject_Z f ?= 1 # 2)%Q with
  | Lt => f
  | Gt => (f + 1)%Z
  | Eq => if Z.even f then f else (f + 1)%Z
  end.

Module Metrics.

(** [np.unique]: the distinct values in ascending order. *)
Fixpoint insert_label (c : Z) (ls : list Z) : list Z :=
  match ls with
  | [] => [c]
  | l :: ls' =>
      match (c ?= l)%Z with
      | Lt => c :: ls
      | Eq => ls
      | Gt => l :: insert_label c ls'
      end
  end.

Definition unique_labels (ys : list Z) : list Z :=
  fold_right insert_label [] ys.

(** Number of samples whose true label is [a] and predicted label [b]. *)
Definition count_pair (a b : Z) (pairs : list (Z * Z)) : nat :=
  length (filter (fun tp => (fst tp =? a)%Z && (snd tp =? b)%Z) pairs).

(** [sklearn.metrics.confusion_matrix(y_true, y_pred)] with
    [labels=None]: the labels are those that appear at least once in
    [y_true] or [y_pred], in sorted order; entry (i, j) counts the
    samples of true label i predicted as label j.  Inputs of different
    lengths are rejected, and so are empty inputs. *)
Definition confusion_matrix (y_true y_pred : list Z) : option (list (list nat)) :=
  if length y_true =? length y_pred then
    match y_true with
    | [] => None
    | _ :: _ =>
        let labels := unique_labels (y_true ++ y_pred) in
        let pairs := combine y_true y_pred in
        Some (map (fun a => map (fun b => count_pair a b pairs) labels) labels)
    end
  else None.

End Metrics.

(** [conf_mat = metrics.confusion_matrix(y_test, np.round(y_pred))],
    [y_pred] being the column of predicted probabilities. *)
Definition conf_mat (y_test : list Z) (y_pred : list Q) : option (list (list nat)) :=
  Metrics.confusion_matrix y_test (map np_round y_pred).

(** The evaluator's matrix in the words of the specification:
    threshold 0.5, 2x2, rows = actual, columns = predicted. *)
Definition threshold_half (p : Q) : Z :=
  if Qle_bool p (1 # 2) then 0%Z else 1%Z.

Definition conf_mat_spec (y_test : list Z) (y_pred : list Q) : list (list nat) :=
  let pairs := combine y_test (map threshold_half y_pred) in
  [ [ Metrics.count_pair 0 0 pairs; Metrics.count_pair 0 1 pairs ];
    [ Metrics.count_pair 1 0 pairs; Metrics.count_pair 1 1 pairs ] ].

(** ** Model search: ranking of the trials (source lines 96-97) *)

Module Tuner.

(** A finished trial: its index in creation order, the hyperparameter
    values it was built from, and its objective ([val_accuracy]). *)
Record Trial : Type := mkTrial {
  trial_id : nat;
  hyperparameters : list Z;
  score : Q
}.

(** The oracle's trial table after a search that observed the
    objectives [results], in creation order. *)
Fixpoint trials_from (i : nat) (results : list (list Z * Q)) : list Trial :=
  match results with
  | [] => []
  | (hp, s) :: rest => mkTrial i hp s :: trials_from (S i) rest
  end.

(** Modelled from the spec: the ranking inside the search engine
    (keras-tuner's oracle) is not part of the repository; section 4.3
    gives it as "trials ranked descending by objective; ties broken by
    earlier trial index".  It is written as the stable descending
    insertion sort of the trial table. *)
Fixpoint insert_trial (t : Trial) (ranked : list Trial) : list Trial :=
  match ranked with
  | [] => [t]
  | u :: ranked' =>
      if Qlt_le_dec (score t) (score u)
      then u :: insert_trial t ranked'
      else t :: ranked
  end.

Definition rank_trials (trials : list Trial) : list Trial :=
  fold_right insert_trial [] trials.

(** [oracle.get_best_trials(num_trials)] *)
Definition get_best_trials (num_trials : nat) (trials : list Trial) : list Trial :=
  firstn num_trials (rank_trials trials).

(** [tuner.get_best_hyperparameters()] with its default
    [num_trials=1]; the notebook reads element [0] of the result. *)
Definition get_best_hyperparameters (trials : list Trial) : list (list Z) :=
  map hyperparameters (get_best_trials 1 trials).

(** [a] is ranked ahead of [b]: a strictly better objective, or the
    same objective and an earlier trial. *)
Definition ahead (a b : Trial) : Prop :=
  (score b < score a)%Q \/ ((score a == score b)%Q /\ trial_id a < trial_id b).

End Tuner.

(** ** Model search: the trial loop (source lines 82-90) *)

Module Search.

(** What the training of one trial yields for the objective: a number,
    or not-a-number when the training diverges. *)
Inductive Objective : Type :=
| NaN
| Value (q : Q).

(** What the engine records for a trial. *)
Inductive Recorded : Type :=
| NegInfinity
| Score (q : Q).

Record TrialResult : Type := mkResult {
  index : nat;
  vector : list Z;
  objective : Recorded
}.

(** Modelled from the spec: the trial loop (keras-tuner's
    [tuner.search]) is not part of the repository; section 4.3 has "a
    trial whose training diverges (objective is not-a-number) is
    recorded with objective = -infinity (worst possible), not
    propagated as a fatal error". *)
Definition record_objective (o : Objective) : Recorded :=
  match o with
  | NaN => NegInfinity
  | Value q => Score q
  end.

(** Strictly worse, with -infinity below every number. *)
Definition worse (a b : Recorded) : bool :=
  match a, b with
  | NegInfinity, Score _ => true
  | Score x, Score y => negb (Qle_bool y x)
  | _, _ => false
  end.

Section Loop.

(** The search policy (the next vector, from the trials observed so
    far) and the training of a vector, both supplied from outside. *)
Variable propose : list TrialResult -> list Z.
Variable train : list Z -> Objective.

(** Modelled from the spec: section 4.3, "each trial: build a fresh
    model from the proposed vector, train ..., record the objective",
    "stop after [max_trials] trials". *)
Fixpoint run_trials (budget : nat) (history : list TrialResult)
  : list TrialResult :=
  match budget with
  | 0 => history
  | S k =>
      let hp := propose history in
      run_trials k
        (history ++ [mkResult (length history) hp (record_objective (train hp))])
  end.

Definition search (max_trials : nat) : list TrialResult :=
  run_trials max_trials [].

End Loop.

(** Modelled from the spec: section 4.3, "returns trials ranked
    descending by objective; ties broken by earlier trial index". *)
Fixpoint insert_result (t : TrialResult) (ranked : list TrialResult)
  : list TrialResult :=
  match ranked with
  | [] => [t]
  | u :: ranked' =>
      if worse (objective t) (objective u)
      then u :: insert_result t ranked'
      else t :: ranked
  end.

Definition rank_results (trials : list TrialResult) : list TrialResult :=
  fold_right insert_result [] trials.

End Search.

(** A search policy and a training whose second trial diverges. *)
Definition widen (history : list Search.TrialResult) : list Z :=
  [(32 * (1 + Z.of_nat (length history)))%Z].

Definition diverges_at_64 (hp : list Z) : Search.Objective :=
  match hp with
  | [64%Z] => Search.NaN
  | _ => Search.Value (85 # 100)
  end.

(** ** Permutation importance (source line 244) *)

(** Column [j] of a matrix stored by rows, and [X[:, j] = v]. *)
Definition column (X : list (list Q)) (j : nat) : list Q :=
  map (fun row => nth j row 0%Q) X.

Fixpoint set_nth (j : nat) (v : Q) (row : list Q) : list Q :=
  match row, j with
  | [], _ => []
  | _ :: row', 0 => v :: row'
  | x :: row', S j' => x :: set_nth j' v row'
  end.

(** [X.shape[1]] *)
Definition width (X : list (list Q)) : nat := length (hd [] X).

(** [np.mean] of a vector, and [np.mean(results, axis=0)] of a table
    with [w] columns. *)
Definition Qsum (l : list Q) : Q := fold_right Qplus 0%Q l.

Definition mean (l : list Q) : Q :=
  (Qsum l / inject_Z (Z.of_nat (length l)))%Q.

Definition mean_axis0 (table : list (list Q)) (w : nat) : list Q :=
  map (fun j => mean (column table j)) (seq 0 w).

Module Eli5.
Section Ranker.

Context `{RandomState}.

(** The wrapped estimator's [score(X, y)]. *)
Variable score_func : list (list Q) -> list Z -> Q.

(** [rng.shuffle(X_res[:, j])]: the column is rearranged in place along
    the permutation the generator draws for its length. *)
Definition permute (col : list Q) (p : list nat) : list Q :=
  map (fun i => nth i col 0%Q) p.

Definition shuffle_column (X : list (list Q)) (j : nat) (p : list nat)
  : list (list Q) :=
  zip_with (fun row v => set_nth j v row) X (permute (column X j) p).

(** Modelled from the spec: the ranker (eli5's [PermutationImportance])
    is not part of the repository; section 4.5 gives its algorithm.
    One pass shuffles each column in turn (the column is restored
    before the next one is shuffled) and scores the shuffled matrix;
    the generator is threaded through the passes. *)
Fixpoint scores_shuffled (g : rng) (X : list (list Q)) (y : list Z)
  (columns : list nat) : list Q * rng :=
  match columns with
  | [] => ([], g)
  | j :: columns' =>
      let (p, g1) := permutation g (length X) in
      let s := score_func (shuffle_column X j p) y in
      let (rest, g2) := scores_shuffled g1 X y columns' in
      (s :: rest, g2)
  end.

(** Modelled from the spec: [n_iter] passes, each recording the score
    decrease [-scores_shuffled + base_score] of every column. *)
Fixpoint score_decreases (n_iter : nat) (g : rng) (X : list (list Q))
  (y : list Z) (columns : list nat) (base_score : Q) : list (list Q) :=
  match n_iter with
  | 0 => []
  | S k =>
      let (ss, g1) := scores_shuffled g X y columns in
      map (fun s => (- s + base_score)%Q) ss
        :: score_decreases k g1 X y columns base_score
  end.

(** Modelled from the spec:
    [PermutationImportance(model, random_state=seed).fit(X, y)
       .feature_importances_], the mean over the passes of each
    column's score decrease. *)
Definition feature_importances_ (n_iter : nat) (seed : Z)
  (X : list (list Q)) (y : list Z) : list Q :=
  let columns := seq 0 (width X) in
  let base_score := score_func X y in
  mean_axis0
    (score_decreases n_iter (RandomState_seed seed) X y columns base_score)
    (width X).

(** The notebook's call: eli5's default [n_iter=5], [random_state=1]. *)
Definition perm (X_os_test : list (list Q)) (y_os_test : list Z) : list Q :=
  feature_importances_ 5 1 X_os_test y_os_test.

(** The permutations a run draws: one per column per pass.  They depend
    on the generator and on the shape of the matrix only. *)
Fixpoint plan_pass (g : rng) (n_rows n_cols : nat) : list (list nat) * rng :=
  match n_cols with
  | 0 => ([], g)
  | S c =>
      let (p, g1) := permutation g n_rows in
      let (rest, g2) := plan_pass g1 n_rows c in
      (p :: rest, g2)
  end.

Fixpoint shuffle_plan (n_iter : nat) (g : rng) (n_rows n_cols : nat)
  : list (list (list nat)) :=
  match n_iter with
  | 0 => []
  | S k =>
      let (pass, g1) := plan_pass g n_rows n_cols in
      pass :: shuffle_plan k g1 n_rows n_cols
  end.

(** The permutations applied to column [j], pass by pass. *)
Definition shuffles_of (n_iter : nat) (seed : Z) (X : list (list Q)) (j : nat)
  : list (list nat) :=
  map (fun pass => nth j pass [])
      (shuffle_plan n_iter (RandomState_seed seed) (length X) (width X)).

(** Importance in the words of the specification: baseline minus the
    mean, over the repeats, of the score with column [j] shuffled. *)
Definition importance_spec (n_iter : nat) (seed : Z)
  (X : list (list Q)) (y : list Z) (j : nat) : Q :=
  (score_func X y
   - mean (map (fun p => score_func (shuffle_column X j p) y)
               (shuffles_of n_iter seed X j)))%Q.

End Ranker.
End Eli5.

(** ** Notebook cells over the process-wide generator

    A cell reads and advances the state of numpy's global generator,
    which the notebook never seeds. *)
Definition Cell `{RandomState} (A : Type) : Type := rng -> option (A * rng).

(** Lines 142-146: [sample] is called without [random_state], so the
    draws come from the process-wide generator. *)
Definition cell_balance `{RandomState} (data : Dataset) : Cell Dataset :=
  fun g => balance g data.


(** What a run of a cell leaves in the notebook's variable. *)
Definition output `{RandomState} {A : Type} (c : Cell A) (g : rng) : option A :=
  option_map fst (c g).

(** [X_train] of a prepared split (empty when the preparation fails). *)
Definition X_train_of
  (r : option (list (list Q) * list (list Q) * list Z * list Z))
  : list (list Q) :=
  match r with
  | Some (X_train, _, _, _) => X_train
  | None => []
  end.

Definition X_test_of
  (r : option (list (list Q) * list (list Q) * list Z * list Z))
  : list (list Q) :=
  match r with
  | Some (_, X_test, _, _) => X_test
  | None => []
  end.

(** ** Concrete inputs *)

(** The survey in miniature: positives are the minority. *)
Definition survey : Dataset :=
  [ mkRow 1 [1; 27 # 1]%Q; mkRow 0 [0; 22 # 1]%Q; mkRow 1 [1; 31 # 1]%Q;
    mkRow 0 [0; 24 # 1]%Q; mkRow 0 [1; 25 # 1]%Q; mkRow 0 [0; 21 # 1]%Q;
    mkRow 0 [0; 29 # 1]%Q ].

(** A dataset in which the positives are the majority. *)
Definition mostly_positive : Dataset :=
  [ mkRow 1 [30 # 1]%Q; mkRow 1 [35 # 1]%Q; mkRow 1 [40 # 1]%Q; mkRow 0 [20 # 1]%Q ].

(** A dataset whose two classes already have the same size. *)
Definition already_balanced : Dataset :=
  [ mkRow 1 [30 # 1]%Q; mkRow 1 [35 # 1]%Q; mkRow 0 [20 # 1]%Q; mkRow 0 [25 # 1]%Q ].

(** Two five-row frames with one feature that differ in row 1 only,
    the row that the split of seed 123 puts in the test part.  On
    these values (ranges 4 and 8) the float computation is exact. *)
Definition visits : Dataset :=
  [ mkRow 0 [0]%Q; mkRow 1 [1]%Q; mkRow 0 [2]%Q; mkRow 0 [3]%Q; mkRow 1 [4]%Q ].

Definition visits_outlier : Dataset :=
  [ mkRow 0 [0]%Q; mkRow 1 [8]%Q; mkRow 0 [2]%Q; mkRow 0 [3]%Q; mkRow 1 [4]%Q ].

(** A scorer in the manner of the notebook's regressor wrapper: the
    negated mean squared error of a predictor that reads feature 0. *)
Definition first_feature_score (X : list (list Q)) (y : list Z) : Q :=
  (- mean (zip_with (fun row c => (nth 0 row 0 - inject_Z c) * (nth 0 row 0 - inject_Z c))
                    X y))%Q.

Definition held_out_X : list (list Q) :=
  [ [1; 5 # 10]%Q; [0; 7 # 10]%Q; [1; 6 # 10]%Q ].

Definition held_out_y : list Z := [1; 0; 0]%Z.

(** One scaled cell, as [transform] computes it. *)
Definition scaled_cell (lo hi x : Q) : Q :=
  (x * (1 / MinMaxScaler.handle_zeros_in_scale (hi - lo))
   + (0 - lo * (1 / MinMaxScaler.handle_zeros_in_scale (hi - lo))))%Q.

(** ** The naive baseline (source line 134) *)

(** [np.sum(y==0)/np.size(y)]: the accuracy of predicting "negative"
    for everybody. *)
Definition naive_accuracy (y : list Z) : Q :=
  (inject_Z (Z.of_nat (length (filter (fun c => c =? 0)%Z y)))
   / inject_Z (Z.of_nat (length y)))%Q.

(** ** The model factory (source lines 73-80) *)

Module Keras.

Inductive Activation : Type := relu | sigmoid.

(** [tf.keras.layers.Dense(units, activation=...)] *)
Record Dense : Type := mkDense {
  units : Z;
  activation : Activation
}.

(** A compiled [Sequential] model: its layers and the arguments of
    [compile]. *)
Record Model : Type := mkModel {
  layers : list Dense;
  loss : string;
  optimizer : string;
  metrics : list string
}.

End Keras.

(** [hp.values]: the hyperparameter values of the trial, by name. *)
Definition HyperParameters := list (string * Z).

Fixpoint hp_lookup (name : string) (hp : HyperParameters) : option Z :=
  match hp with
  | [] => None
  | (k, v) :: hp' => if String.eqb name k then Some v else hp_lookup name hp'
  end.

(** [hp.Int(name, min_value, max_value, step)]: the value the trial
    holds for [name]; a name the trial does not hold yet takes the
    default of an integer hyperparameter, its [min_value]. *)
Definition hp_Int (hp : HyperParameters) (name : string)
  (min_value max_value step : Z) : Z :=
  match hp_lookup name hp with
  | Some v => v
  | None => min_value
  end.

(** [f"layer_{i}"] *)
Definition layer_name (i : nat) : string :=
  ("layer_" ++ NilEmpty.string_of_uint (Nat.to_uint i))%string.

(** [build_model(hp)]: an input layer, [n_layers] hidden layers (the
    loop is over [range(n_layers)], empty when the bound is not
    positive), and one sigmoid output unit. *)
Definition build_model (hp : HyperParameters) : Keras.Model :=
  Keras.mkModel
    ([Keras.mkDense (hp_Int hp "input_units" 32 512 32) Keras.relu]
       ++ map (fun i => Keras.mkDense (hp_Int hp (layer_name i) 32 512 32)
                                      Keras.relu)
              (seq 0 (Z.to_nat (hp_Int hp "n_layers" 1 2 1)))
       ++ [Keras.mkDense 1 Keras.sigmoid])
    "mse" "adam" ["accuracy"%string].

(** The declared range of an integer hyperparameter: [min_value],
    [min_value + step], ... up to [max_value]. *)
Definition in_Int_range (min_value max_value step v : Z) : Prop :=
  (min_value <= v <= max_value)%Z /\ ((v - min_value) mod step = 0)%Z.

(** ** Column selection (source line 288) *)

(** [columns.get_loc(name)] on a header without repeated names. *)
Fixpoint index_of (name : string) (columns : list string) : option nat :=
  match columns with
  | [] => None
  | c :: columns' =>
      if String.eqb name c then Some 0
      else option_map S (index_of name columns')
  end.

Fixpoint get_locs (names columns : list string) : option (list nat) :=
  match names with
  | [] => Some []
  | name :: names' =>
      match index_of name columns, get_locs names' columns with
      | Some j, Some js => Some (j :: js)
      | _, _ => None
      end
  end.

(** The cells of one row at the positions [js]. *)
Definition select_cells (js : list nat) (row : list Q) : list Q :=
  map (fun j => nth j row 0%Q) js.

(** [X[[name, ...]]]: the named columns, in the order asked for; a name
    that is not a column raises [KeyError]. *)
Definition select_columns (columns names : list string) (X : list (list Q))
  : option (list (list Q)) :=
  match get_locs names columns with
  | Some js => Some (map (select_cells js) X)
  | None => None
  end.

(** The twelve columns of line 288. *)
Definition risk_factors : list string :=
  [ "HighBP"; "BMI"; "GenHlth"; "Age"; "Income"; "HighChol"; "Sex";
    "PhysHlth"; "Smoker"; "Fruits"; "DiffWalk"; "PhysActivity" ]%string.

(** [X_sub = X_os[[...]]] and [X_sub_sc = MinMaxScaler().fit_transform(X_sub)]
    (lines 288-289). *)
Definition X_sub_sc (columns : list string) (X_os : list (list Q))
  : option (list (list Q)) :=
  match select_columns columns risk_factors X_os with
  | Some X_sub => MinMaxScaler.fit_transform X_sub
  | None => None
  end.

(** The sum of the cells of a matrix of counts. *)
Definition total (m : list (list nat)) : nat := list_sum (map list_sum m).

(** A frame whose header holds the twelve risk factors among others. *)
Definition survey_columns : list string :=
  [ "HighBP"; "HighChol"; "BMI"; "Smoker"; "Fruits"; "PhysActivity";
    "GenHlth"; "PhysHlth"; "DiffWalk"; "Sex"; "Age"; "Income";
    "Education" ]%string.

Definition survey_X : list (list Q) :=
  [ [1; 1; 40; 1; 0; 0; 5; 15; 1; 0; 9; 3; 4]%Q;
    [0; 0; 25; 1; 0; 1; 3; 0; 0; 0; 7; 1; 6]%Q;
    [1; 1; 28; 0; 1; 0; 5; 30; 1; 0; 9; 8; 4]%Q ].

(** * Properties *)

(** ** The tape generator meets the [RandomState] contract *)

Lemma tape_draws_length g n : length (tape_draws g n) = n.
Proof.
  unfold tape_draws. rewrite length_firstn, length_app, repeat_length. lia.
Qed.

Lemma tape_choice_length g a n : length (fst (tape_choice g a n)) = n.
Proof. simpl. rewrite length_map. apply tape_draws_length. Qed.

Lemma tape_choice_range g a n :
  0 < a -> Forall (fun i => i < a) (fst (tape_choice g a n)).
Proof.
  intros Ha. simpl. apply Forall_forall. intros i Hi.
  apply in_map_iff in Hi. destruct Hi as [r [<- _]].
  apply Nat.mod_upper_bound. lia.
Qed.

Lemma insert_key_Permutation (k : nat * nat) (l : list (nat * nat)) :
  Permutation (insert_key k l) (k :: l).
Proof.
  induction l as [|h t IH]; simpl; auto.
  destruct (fst k <=? fst h); auto.
  rewrite IH. apply perm_swap.
Qed.

Lemma map_snd_combine_seq (keys : list nat) (a : nat) :
  map snd (combine keys (seq a (length keys))) = seq a (length keys).
Proof.
  revert a. induction keys as [|k keys IH]; intros a; simpl; auto.
  now rewrite IH.
Qed.

Lemma argsort_Permutation (keys : list nat) :
  Permutation (argsort keys) (seq 0 (length keys)).
Proof.
  unfold argsort. rewrite <- (map_snd_combine_seq keys 0) at 2.
  apply Permutation_map.
  induction (combine keys (seq 0 (length keys))) as [|k l IH]; simpl; auto.
  rewrite insert_key_Permutation. now constructor.
Qed.

Lemma tape_permutation_spec g n :
  Permutation (fst (tape_permutation g n)) (seq 0 n).
Proof.
  simpl. rewrite <- (tape_draws_length g n) at 2.
  apply argsort_Permutation.
Qed.

#[export] Instance tape : RandomState := {|
  rng := list nat;
  RandomState_seed := tape_seed;
  choice := tape_choice;
  permutation := tape_permutation;
  choice_length := tape_choice_length;
  choice_range := tape_choice_range;
  permutation_spec := tape_permutation_spec
|}.

(** ** Positional selection *)

Lemma take_some {A : Type} (df : list A) (locs : list nat) :
  Forall (fun i => i < length df) locs ->
  exists rows, take df locs = Some rows.
Proof.
  induction 1 as [|i locs Hi _ IH]; simpl.
  - now exists [].
  - destruct IH as [rs ->].
    destruct (nth_error df i) as [r|] eqn:E.
    + now exists (r :: rs).
    + apply nth_error_None in E. lia.
Qed.

Lemma take_inv {A : Type} (df : list A) (locs : list nat) (rows : list A) :
  take df locs = Some rows ->
  Forall2 (fun i r => nth_error df i = Some r) locs rows.
Proof.
  revert rows. induction locs as [|i locs IH]; simpl; intros rows Hr.
  - injection Hr as <-. constructor.
  - destruct (nth_error df i) as [r|] eqn:E; [|discriminate].
    destruct (take df locs) as [rs|]; [|discriminate].
    injection Hr as <-. constructor; auto.
Qed.

Lemma take_length {A : Type} (df : list A) locs rows :
  take df locs = Some rows -> length rows = length locs.
Proof.
  intros Hr. apply take_inv in Hr.
  symmetry. eapply Forall2_length; eauto.
Qed.

Lemma take_In {A : Type} (df : list A) locs rows :
  take df locs = Some rows -> Forall (fun r => In r df) rows.
Proof.
  intros Hr. apply take_inv in Hr.
  induction Hr; constructor; auto.
  eapply nth_error_In; eauto.
Qed.

Lemma take_app {A : Type} (df : list A) l1 l2 r1 r2 :
  take df l1 = Some r1 -> take df l2 = Some r2 ->
  take df (l1 ++ l2) = Some (r1 ++ r2).
Proof.
  revert r1. induction l1 as [|i l1 IH]; simpl; intros r1 H1 H2.
  - now injection H1 as <-.
  - destruct (nth_error df i); [|discriminate].
    destruct (take df l1) as [rs|]; [|discriminate].
    injection H1 as <-. now rewrite (IH rs eq_refl H2).
Qed.

Lemma take_seq_shift {A : Type} (pre df : list A) :
  take (pre ++ df) (seq (length pre) (length df)) = Some df.
Proof.
  revert pre. induction df as [|x df IH]; intros pre; simpl; auto.
  rewrite nth_error_app2, Nat.sub_diag by lia. simpl.
  specialize (IH (pre ++ [x])).
  rewrite length_app, Nat.add_1_r, <- app_assoc in IH. simpl in IH.
  now rewrite IH.
Qed.

Lemma take_seq {A : Type} (df : list A) :
  take df (seq 0 (length df)) = Some df.
Proof. apply (take_seq_shift [] df). Qed.

Lemma take_Permutation {A : Type} (df : list A) l1 l2 :
  Permutation l1 l2 ->
  forall r1, take df l1 = Some r1 ->
  exists r2, take df l2 = Some r2 /\ Permutation r1 r2.
Proof.
  induction 1 as [|i l1 l2 _ IH|i j l|l1 l2 l3 _ IH1 _ IH2];
    simpl; intros r1 Hr.
  - exists r1. split; auto.
  - destruct (nth_error df i) as [r|]; [|discriminate].
    destruct (take df l1) as [rs|]; [|discriminate].
    injection Hr as <-. destruct (IH rs eq_refl) as [rs' [-> Hp]].
    exists (r :: rs'). split; auto.
  - destruct (nth_error df j) as [rj|]; [|discriminate].
    destruct (nth_error df i) as [ri|]; [|discriminate].
    destruct (take df l) as [rs|]; [|discriminate].
    injection Hr as <-. exists (ri :: rj :: rs). split; auto. constructor.
  - destruct (IH1 r1 Hr) as [r2 [H2 Hp]].
    destruct (IH2 r2 H2) as [r3 [H3 Hq]].
    exists r3. split; auto. now transitivity r2.
Qed.

(** ** Class balancing *)

Lemma filter_all {A : Type} (f : A -> bool) l :
  Forall (fun x => f x = true) l -> filter f l = l.
Proof.
  induction 1 as [|x l Hx _ IH]; simpl; auto. now rewrite Hx, IH.
Qed.

Lemma filter_none {A : Type} (f : A -> bool) l :
  Forall (fun x => f x = false) l -> filter f l = [].
Proof.
  induction 1 as [|x l Hx _ IH]; simpl; auto. now rewrite Hx.
Qed.

Lemma select_label_label c data :
  Forall (fun r => Diabetes_binary r = c) (select_label c data).
Proof.
  apply Forall_forall. intros r Hr.
  apply filter_In in Hr. destruct Hr as [_ Hr]. now apply Z.eqb_eq.
Qed.

Lemma select_label_In c data :
  Forall (fun r => In r data) (select_label c data).
Proof.
  apply Forall_forall. intros r Hr. now apply filter_In in Hr.
Qed.

Lemma class_count_same c rows :
  Forall (fun r => Diabetes_binary r = c) rows -> class_count c rows = length rows.
Proof.
  intros Hc. unfold class_count, select_label. rewrite filter_all; auto.
  eapply Forall_impl; [|exact Hc]. intros r Hr. now apply Z.eqb_eq.
Qed.

Lemma class_count_other c c' rows :
  c <> c' ->
  Forall (fun r => Diabetes_binary r = c) rows -> class_count c' rows = 0.
Proof.
  intros Hne Hc. unfold class_count, select_label. rewrite filter_none; auto.
  eapply Forall_impl; [|exact Hc]. intros r Hr. simpl in Hr.
  apply Z.eqb_neq. congruence.
Qed.

Lemma class_count_app c d1 d2 :
  class_count c (d1 ++ d2) = class_count c d1 + class_count c d2.
Proof.
  unfold class_count, select_label. now rewrite filter_app, length_app.
Qed.

(** [sample] succeeds as soon as the frame is non-empty or nothing is
    requested, and returns [n] rows of the frame. *)
Lemma sample_some `{RandomState} (g : rng) (df : Dataset) (n : nat) :
  df <> [] \/ n = 0 ->
  exists rows g', sample g df n = Some (rows, g')
    /\ take df (fst (choice g (length df) n)) = Some rows
    /\ g' = snd (choice g (length df) n).
Proof.
  intros Hok.
  assert (Hr : Forall (fun i => i < length df) (fst (choice g (length df) n))).
  { destruct df as [|r df].
    - destruct Hok as [Hne|Hn]; [congruence|]. subst n.
      pose proof (choice_length g (length (@nil Row)) 0) as Hl.
      apply length_zero_iff_nil in Hl. rewrite Hl. constructor.
    - apply choice_range. simpl. lia. }
  destruct (take_some _ _ Hr) as [rows Hrows].
  exists rows, (snd (choice g (length df) n)).
  split; [|split]; auto.
  unfold sample.
  destruct (choice g (length df) n) as [locs g'] eqn:Ec. simpl in *.
  rewrite Hrows.
  destruct df as [|r df]; [|reflexivity].
  destruct n; [reflexivity|].
  destruct Hok as [Hne|Hn]; [congruence|discriminate].
Qed.

Lemma sample_inv `{RandomState} (g : rng) (df : Dataset) (n : nat) rows g' :
  sample g df n = Some (rows, g') ->
  take df (fst (choice g (length df) n)) = Some rows
  /\ g' = snd (choice g (length df) n).
Proof.
  unfold sample. intros Hs.
  destruct (choice g (length df) n) as [locs g1] eqn:Ec. simpl.
  destruct (take df locs) as [rs|] eqn:Et.
  - destruct df as [|r df]; [destruct n|]; try discriminate;
      injection Hs as <- <-; auto.
  - destruct df as [|r df]; [destruct n|]; discriminate.
Qed.

Lemma sample_length `{RandomState} (g : rng) df n rows g' :
  sample g df n = Some (rows, g') -> length rows = n.
Proof.
  intros Hs. apply sample_inv in Hs. destruct Hs as [Ht _].
  apply take_length in Ht. now rewrite Ht, choice_length.
Qed.

Lemma sample_In `{RandomState} (g : rng) df n rows g' :
  sample g df n = Some (rows, g') -> Forall (fun r => In r df) rows.
Proof.
  intros Hs. apply sample_inv in Hs. destruct Hs as [Ht _].
  eapply take_In; eauto.
Qed.

(** What [balance] returns, whenever it returns. *)
Lemma balance_inv `{RandomState} (g : rng) data out g' :
  balance g data = Some (out, g') ->
  exists oversampled,
    out = oversampled ++ nodiabetes_group data
    /\ sample g (diabetes_group data) (length (nodiabetes_group data))
       = Some (oversampled, g').
Proof.
  unfold balance. intros Hb.
  destruct (sample g (diabetes_group data) (length (nodiabetes_group data)))
    as [[s g1]|] eqn:Es; [|discriminate].
  injection Hb as <- <-. now exists s.
Qed.

(** C1. For every dataset with at least one record of each class,
    [balance] returns a dataset in which the two classes have the same
    number of records, and every record of the result is a record of
    the input. *)
Theorem balance_equal_class_counts `{RandomState} (g : rng) (data : Dataset) :
  0 < class_count 1 data ->
  0 < class_count 0 data ->
  exists out g',
    balance g data = Some (out, g')
    /\ class_count 1 out = class_count 0 out
    /\ Forall (fun r => In r data) out.
Proof.
  intros H1 H0.
  assert (Hne : diabetes_group data <> []).
  { unfold class_count in H1. fold (diabetes_group data) in H1.
    intros E. rewrite E in H1. simpl in H1. lia. }
  destruct (sample_some g _ (length (nodiabetes_group data)) (or_introl Hne))
    as [s [g' [Hs _]]].
  exists (s ++ nodiabetes_group data), g'.
  split; [unfold balance; now rewrite Hs|].
  pose proof (sample_length _ _ _ _ _ Hs) as Hlen.
  pose proof (sample_In _ _ _ _ _ Hs) as Hin.
  assert (Hs1 : Forall (fun r => Diabetes_binary r = 1%Z) s).
  { rewrite Forall_forall in *. intros r Hr.
    pose proof (select_label_label 1 data) as Hl.
    rewrite Forall_forall in Hl. apply Hl. now apply Hin. }
  unfold nodiabetes_group, diabetes_group in *.
  split.
  - rewrite !class_count_app.
    rewrite (class_count_same _ _ Hs1).
    rewrite (class_count_other 1 0 s) by (auto; lia).
    rewrite (class_count_other 0 1 (select_label 0 data))
      by (try lia; apply select_label_label).
    rewrite (class_count_same _ _ (select_label_label 0 data)).
    lia.
  - apply Forall_app. split.
    + rewrite Forall_forall in *. intros r Hr.
      specialize (Hin r Hr).
      now apply filter_In in Hin.
    + apply select_label_In.
Qed.

Lemma balance_equal_class_counts_witness :
  exists out g',
    balance (H := tape) [4; 1; 0; 7; 2] survey = Some (out, g')
    /\ class_count 1 out = class_count 0 out
    /\ Forall (fun r => In r survey) out.
Proof.
  apply (@balance_equal_class_counts tape [4; 1; 0; 7; 2] survey);
    vm_compute; lia.
Defined.

(** C2, as stated, fails: with three positives and one negative the
    code draws one record from the larger class and keeps the smaller
    class, where the specification's ordering by size resamples the
    smaller class and keeps the larger one. *)
Lemma balance_minority_resampled_counterexample :
  length (select_label 0 mostly_positive) < length (select_label 1 mostly_positive)
  /\ balance (H := tape) [0] mostly_positive
     = Some ([mkRow 1 [30 # 1]%Q; mkRow 0 [20 # 1]%Q], [])
  /\ balance_spec (H := tape) [0] mostly_positive
     = Some ([mkRow 0 [20 # 1]%Q; mkRow 0 [20 # 1]%Q; mkRow 0 [20 # 1]%Q;
              mkRow 1 [30 # 1]%Q; mkRow 1 [35 # 1]%Q; mkRow 1 [40 # 1]%Q], [])
  /\ balance (H := tape) [0] mostly_positive
     <> balance_spec (H := tape) [0] mostly_positive.
Proof.
  split; [vm_compute; lia|].
  split; [reflexivity|]. split; [reflexivity|].
  intros E. vm_compute in E. discriminate E.
Qed.

(** C2, amended. Whatever the class sizes, [balance] draws
    [len(class 0)] records with replacement from the class-1 partition
    and appends the class-0 partition unmodified; this is the
    minority-resampling of the specification when class 1 is the
    smaller class. *)
Theorem balance_resamples_diabetes_group `{RandomState}
  (g : rng) (data : Dataset) (out : Dataset) (g' : rng) :
  balance g data = Some (out, g') ->
  (exists oversampled,
      out = oversampled ++ select_label 0 data
      /\ length oversampled = length (select_label 0 data)
      /\ Forall (fun r => In r (select_label 1 data)) oversampled)
  /\ (length (select_label 1 data) < length (select_label 0 data) ->
      balance_spec g data = Some (out, g')).
Proof.
  intros Hb. split.
  - destruct (balance_inv _ _ _ _ Hb) as [s [-> Hs]].
    exists s. split; [reflexivity|]. split.
    + apply (sample_length _ _ _ _ _ Hs).
    + apply (sample_In _ _ _ _ _ Hs).
  - intros Hlt. unfold balance_spec.
    destruct (length (select_label 1 data) <=? length (select_label 0 data))
      eqn:E.
    + exact Hb.
    + apply Nat.leb_gt in E. lia.
Qed.

Lemma balance_resamples_diabetes_group_witness :
  (exists oversampled,
      [mkRow 1 [1; 31 # 1]%Q; mkRow 1 [1; 31 # 1]%Q; mkRow 1 [1; 27 # 1]%Q;
       mkRow 1 [1; 31 # 1]%Q; mkRow 1 [1; 27 # 1]%Q] ++ select_label 0 survey
      = oversampled ++ select_label 0 survey
      /\ length oversampled = length (select_label 0 survey)
      /\ Forall (fun r => In r (select_label 1 survey)) oversampled)
  /\ (length (select_label 1 survey) < length (select_label 0 survey) ->
      balance_spec (H := tape) [5; 1; 0; 7; 2] survey
      = Some ([mkRow 1 [1; 31 # 1]%Q; mkRow 1 [1; 31 # 1]%Q;
               mkRow 1 [1; 27 # 1]%Q; mkRow 1 [1; 31 # 1]%Q;
               mkRow 1 [1; 27 # 1]%Q] ++ select_label 0 survey, [])).
Proof.
  apply (@balance_resamples_diabetes_group tape [5; 1; 0; 7; 2] survey).
  reflexivity.
Defined.

(** C3, as stated, fails: on a dataset with two records per class the
    code still samples the positives with replacement; when both draws
    hit the first positive, that record is duplicated and the second
    one is lost, so the result is not the two partitions concatenated
    (in either order). *)
Lemma balance_balanced_unchanged_counterexample :
  class_count 1 already_balanced = class_count 0 already_balanced
  /\ balance (H := tape) [0; 0] already_balanced
     = Some ([mkRow 1 [30 # 1]%Q; mkRow 1 [30 # 1]%Q;
              mkRow 0 [20 # 1]%Q; mkRow 0 [25 # 1]%Q], [])
  /\ output (cell_balance (H := tape) already_balanced) [0; 0]
     <> Some (select_label 1 already_balanced ++ select_label 0 already_balanced)
  /\ output (cell_balance (H := tape) already_balanced) [0; 0]
     <> Some (select_label 0 already_balanced ++ select_label 1 already_balanced).
Proof.
  split; [reflexivity|]. split; [reflexivity|].
  split; intros E; vm_compute in E; discriminate E.
Qed.

(** C3, amended. On a dataset whose classes have equal cardinality
    [balance] succeeds and still draws [len(class 0)] records with
    replacement from class 1 before appending class 0 unchanged: the
    class counts are those of the input and every record is an input
    record, but the result is the two partitions concatenated only when
    the draws are 0, 1, ..., n-1 in this order. *)
Theorem balance_on_balanced_input `{RandomState} (g : rng) (data : Dataset) :
  class_count 1 data = class_count 0 data ->
  exists out g' oversampled,
    balance g data = Some (out, g')
    /\ out = oversampled ++ select_label 0 data
    /\ class_count 1 out = class_count 1 data
    /\ class_count 0 out = class_count 0 data
    /\ Forall (fun r => In r (select_label 1 data)) oversampled
    /\ (fst (choice g (class_count 1 data) (class_count 0 data))
          = seq 0 (class_count 1 data) ->
        out = select_label 1 data ++ select_label 0 data).
Proof.
  intros Heq.
  assert (Hok : diabetes_group data <> [] \/ length (nodiabetes_group data) = 0).
  { unfold class_count in Heq.
    fold (diabetes_group data) (nodiabetes_group data) in Heq.
    destruct (diabetes_group data); [right; simpl in Heq; lia|left; discriminate]. }
  destruct (sample_some g _ (length (nodiabetes_group data)) Hok)
    as [s [g' [Hs [Ht _]]]].
  exists (s ++ select_label 0 data), g', s.
  pose proof (sample_length _ _ _ _ _ Hs) as Hlen.
  pose proof (sample_In _ _ _ _ _ Hs) as Hin.
  assert (Hs1 : Forall (fun r => Diabetes_binary r = 1%Z) s).
  { rewrite Forall_forall in *. intros r Hr.
    pose proof (select_label_label 1 data) as Hl.
    rewrite Forall_forall in Hl. apply Hl. now apply Hin. }
  split; [unfold balance; now rewrite Hs|].
  split; [reflexivity|].
  split; [|split; [|split]].
  - rewrite class_count_app, (class_count_same _ _ Hs1).
    rewrite (class_count_other 0 1 (select_label 0 data))
      by (try lia; apply select_label_label).
    rewrite Hlen, Heq. unfold class_count, nodiabetes_group. lia.
  - rewrite class_count_app.
    rewrite (class_count_other 1 0 s) by (auto; lia).
    rewrite (class_count_same _ _ (select_label_label 0 data)).
    reflexivity.
  - exact Hin.
  - intros Hdraws. f_equal.
    unfold class_count in Hdraws.
    fold (diabetes_group data) (nodiabetes_group data) in Hdraws.
    rewrite Hdraws, take_seq in Ht. now injection Ht as <-.
Qed.

Lemma balance_on_balanced_input_witness :
  exists out g' oversampled,
    balance (H := tape) [1; 0] already_balanced = Some (out, g')
    /\ out = oversampled ++ select_label 0 already_balanced
    /\ class_count 1 out = class_count 1 already_balanced
    /\ class_count 0 out = class_count 0 already_balanced
    /\ Forall (fun r => In r (select_label 1 already_balanced)) oversampled
    /\ (fst (choice (RandomState := tape) [1; 0]
               (class_count 1 already_balanced)
               (class_count 0 already_balanced))
          = seq 0 (class_count 1 already_balanced) ->
        out = select_label 1 already_balanced ++ select_label 0 already_balanced).
Proof.
  apply (@balance_on_balanced_input tape [1; 0] already_balanced).
  reflexivity.
Defined.

(** ** Scaling and splitting *)

Lemma take_app_inv {A : Type} (df : list A) l1 l2 r :
  take df (l1 ++ l2) = Some r ->
  exists r1 r2, take df l1 = Some r1 /\ take df l2 = Some r2 /\ r = r1 ++ r2.
Proof.
  revert r. induction l1 as [|i l1 IH]; simpl; intros r Hr.
  - exists [], r. auto.
  - destruct (nth_error df i) as [x|]; [|discriminate].
    destruct (take df (l1 ++ l2)) as [rs|]; [|discriminate].
    injection Hr as <-.
    destruct (IH rs eq_refl) as [r1 [r2 [-> [-> ->]]]].
    exists (x :: r1), r2. auto.
Qed.

Lemma n_test_of_lt n : 2 <= n -> 0 < n_test_of n < n.
Proof.
  intros Hn. unfold n_test_of. split.
  - apply Nat.div_str_pos. lia.
  - apply Nat.Div0.div_lt_upper_bound. lia.
Qed.

(** The train indices are what remains of the permutation after the
    test indices. *)
Lemma split_indices_eq `{RandomState} n :
  split_indices n
  = (skipn (n_test_of n) (fst (permutation (RandomState_seed 123) n)),
     firstn (n_test_of n) (fst (permutation (RandomState_seed 123) n))).
Proof.
  unfold split_indices. f_equal.
  apply firstn_all2. rewrite length_skipn.
  rewrite (Permutation_length (permutation_spec _ n)), length_seq. lia.
Qed.

(** Taking a list along a permutation of its positions, cut in two. *)
Lemma take_split_Permutation {A : Type} (X : list A) (p : list nat) k :
  Permutation p (seq 0 (length X)) ->
  exists r_tail r_head,
    take X (skipn k p) = Some r_tail
    /\ take X (firstn k p) = Some r_head
    /\ Permutation (r_head ++ r_tail) X.
Proof.
  intros Hp.
  destruct (take_Permutation X _ _ (Permutation_sym Hp) X (take_seq X))
    as [r [Hr Hperm]].
  rewrite <- (firstn_skipn k p) in Hr.
  destruct (take_app_inv _ _ _ _ Hr) as [r1 [r2 [H1 [H2 ->]]]].
  exists r2, r1. split; [|split]; auto. now symmetry.
Qed.

Lemma train_test_split_some `{RandomState} {A B : Type}
  (X : list A) (y : list B) :
  length y = length X -> 2 <= length X ->
  exists X_train X_test y_train y_test,
    train_test_split X y = Some (X_train, X_test, y_train, y_test)
    /\ Permutation (X_test ++ X_train) X
    /\ Permutation (y_test ++ y_train) y.
Proof.
  intros Hy Hn.
  pose proof (permutation_spec (RandomState_seed 123) (length X)) as Hp.
  destruct (take_split_Permutation X _ (n_test_of (length X)) Hp)
    as [Xtr [Xte [HXtr [HXte HXp]]]].
  assert (Hp' := Hp). rewrite <- Hy in Hp' at 2.
  destruct (take_split_Permutation y _ (n_test_of (length X)) Hp')
    as [ytr [yte [Hytr [Hyte Hyp]]]].
  exists Xtr, Xte, ytr, yte. split; [|split]; auto.
  unfold train_test_split.
  rewrite Hy, Nat.eqb_refl. cbv [negb].
  destruct (n_test_of_lt _ Hn) as [_ Hlt].
  destruct (length X - n_test_of (length X) =? 0) eqn:E.
  - apply Nat.eqb_eq in E. lia.
  - rewrite split_indices_eq. now rewrite HXtr, HXte, Hytr, Hyte.
Qed.

(** C4, as stated, fails: the two frames below agree on every training
    row (they differ in row 1 only, the test row of the split), yet the
    scaled training matrices differ, because the scaler was fitted on
    all rows before the split.  Nor is the scaled test row what a
    scaler fitted on the training rows alone would give. *)
Lemma scaling_fit_on_train_only_counterexample :
  split_indices (H := tape) 5 = ([3; 4; 0; 2], [1])
  /\ take (drop_label visits) (fst (split_indices (H := tape) 5))
     = Some [[3%Q]; [4%Q]; [0%Q]; [2%Q]]
  /\ take (drop_label visits_outlier) (fst (split_indices (H := tape) 5))
     = Some [[3%Q]; [4%Q]; [0%Q]; [2%Q]]
  /\ take (drop_label visits_outlier) (snd (split_indices (H := tape) 5))
     = Some [[8%Q]]
  /\ matrix_eq (X_train_of (prepare (H := tape) visits))
               [[(3 # 4)%Q]; [1%Q]; [0%Q]; [(1 # 2)%Q]]
  /\ matrix_eq (X_train_of (prepare (H := tape) visits_outlier))
               [[(3 # 8)%Q]; [(1 # 2)%Q]; [0%Q]; [(1 # 4)%Q]]
  /\ ~ matrix_eq (X_train_of (prepare (H := tape) visits))
                 (X_train_of (prepare (H := tape) visits_outlier))
  /\ exists X_test_spec,
       scale_spec [[8%Q]] [[3%Q]; [4%Q]; [0%Q]; [2%Q]] = Some X_test_spec
       /\ matrix_eq X_test_spec [[2%Q]]
       /\ matrix_eq (X_test_of (prepare (H := tape) visits_outlier)) [[1%Q]]
       /\ ~ matrix_eq (X_test_of (prepare (H := tape) visits_outlier))
                      X_test_spec.
Proof.
  split; [reflexivity|].
  split; [reflexivity|]. split; [reflexivity|]. split; [reflexivity|].
  split; [vm_compute; repeat constructor|].
  split; [vm_compute; repeat constructor|].
  split.
  - intros E. vm_compute in E.
    inversion E as [|r r' l l' Hr _]; subst.
    inversion Hr as [|q q' m m' Hq _]; subst.
    discriminate Hq.
  - eexists. split; [reflexivity|]. split; [|split].
    + vm_compute. repeat constructor.
    + vm_compute. repeat constructor.
    + intros E. vm_compute in E.
      inversion E as [|r r' l l' Hr _]; subst.
      inversion Hr as [|q q' m m' Hq _]; subst.
      discriminate Hq.
Qed.

(** C4, amended. The scaling parameters are the per-column minimum and
    maximum of the whole feature matrix: the scaler is fitted once, on
    all rows, before the split, and the training and test matrices are
    the rows of that one scaled matrix.  Nothing is refitted, and
    nothing is fitted on the training rows alone. *)
Theorem prepare_scales_before_split `{RandomState} (data : Dataset) :
  2 <= length data ->
  0 < width (drop_label data) ->
  exists s X_train X_test y_train y_test,
    MinMaxScaler.fit (drop_label data) = Some s
    /\ prepare data = Some (X_train, X_test, y_train, y_test)
    /\ Permutation (X_test ++ X_train)
                   (MinMaxScaler.transform s (drop_label data))
    /\ Permutation (y_test ++ y_train) (label_column data).
Proof.
  intros Hn Hw.
  destruct (MinMaxScaler.fit (drop_label data)) as [s|] eqn:Hfit.
  2:{ destruct data as [|r data]; [simpl in Hn; lia|].
      unfold width in Hw. simpl in Hw, Hfit.
      destruct (length (features r)); [lia|discriminate]. }
  assert (Hlen : length (label_column data)
                 = length (MinMaxScaler.transform s (drop_label data))).
  { unfold label_column, MinMaxScaler.transform, drop_label.
    now rewrite !length_map. }
  assert (Hn' : 2 <= length (MinMaxScaler.transform s (drop_label data))).
  { unfold MinMaxScaler.transform, drop_label. now rewrite !length_map. }
  destruct (train_test_split_some _ _ Hlen Hn')
    as [Xtr [Xte [ytr [yte [Hsplit [HpX Hpy]]]]]].
  exists s, Xtr, Xte, ytr, yte.
  split; [reflexivity|]. split; [|split]; auto.
  unfold prepare, MinMaxScaler.fit_transform. now rewrite Hfit.
Qed.

Lemma prepare_scales_before_split_witness :
  exists s X_train X_test y_train y_test,
    MinMaxScaler.fit (drop_label visits_outlier) = Some s
    /\ prepare (H := tape) visits_outlier
       = Some (X_train, X_test, y_train, y_test)
    /\ Permutation (X_test ++ X_train)
                   (MinMaxScaler.transform s (drop_label visits_outlier))
    /\ Permutation (y_test ++ y_train) (label_column visits_outlier).
Proof.
  apply (@prepare_scales_before_split tape visits_outlier).
  - simpl. lia.
  - unfold width. simpl. lia.
Defined.

(** ** Rounding and the confusion matrix *)

Lemma Qfloor_unit (p : Q) : (0 <= p)%Q -> (p < 1)%Q -> Qfloor p = 0%Z.
Proof.
  intros H0 H1.
  pose proof (Qfloor_le p) as Hlo.
  pose proof (Qlt_floor p) as Hhi.
  assert (Ha : (Qfloor p < 1)%Z).
  { rewrite Zlt_Qlt. eapply Qle_lt_trans; [exact Hlo|exact H1]. }
  assert (Hb : (0 < Qfloor p + 1)%Z).
  { rewrite Zlt_Qlt. eapply Qle_lt_trans; [exact H0|exact Hhi]. }
  lia.
Qed.

(** On probabilities, [np.round] is the threshold at one half, the
    half itself going down. *)
Lemma np_round_unit (p : Q) :
  (0 <= p <= 1)%Q -> np_round p = threshold_half p.
Proof.
  intros [H0 H1]. unfold np_round, threshold_half.
  destruct (Qlt_le_dec p 1) as [Hlt|Hge].
  - rewrite (Qfloor_unit p H0 Hlt).
    destruct (Qcompare_spec (p - inject_Z 0) (1 # 2)) as [E|E|E];
      unfold inject_Z in E; simpl.
    + replace (Qle_bool p (1 # 2)) with true; [reflexivity|].
      symmetry. apply Qle_bool_iff. lra.
    + replace (Qle_bool p (1 # 2)) with true; [reflexivity|].
      symmetry. apply Qle_bool_iff. lra.
    + destruct (Qle_bool p (1 # 2)) eqn:Eb; [|reflexivity].
      apply Qle_bool_iff in Eb. lra.
  - assert (Hp : (p == 1)%Q) by lra.
    rewrite (Qfloor_comp _ _ Hp). change (Qfloor 1) with 1%Z.
    destruct (Qcompare_spec (p - inject_Z 1) (1 # 2)) as [E|E|E];
      unfold inject_Z in E; try lra.
    destruct (Qle_bool p (1 # 2)) eqn:Eb; [|reflexivity].
    apply Qle_bool_iff in Eb. lra.
Qed.

Lemma map_np_round_unit (y_pred : list Q) :
  Forall (fun p => (0 <= p <= 1)%Q) y_pred ->
  map np_round y_pred = map threshold_half y_pred.
Proof.
  induction 1 as [|p l Hp _ IH]; simpl; auto.
  now rewrite (np_round_unit p Hp), IH.
Qed.

Lemma threshold_half_binary (p : Q) :
  threshold_half p = 0%Z \/ threshold_half p = 1%Z.
Proof. unfold threshold_half. destruct (Qle_bool p (1 # 2)); auto. Qed.

(** The labels found in binary data. *)
Lemma unique_labels_binary (ys : list Z) :
  Forall (fun c => c = 0 \/ c = 1)%Z ys ->
  Metrics.unique_labels ys
  = (if existsb (Z.eqb 0) ys then [0%Z] else [])
      ++ (if existsb (Z.eqb 1) ys then [1%Z] else []).
Proof.
  induction 1 as [|c l Hc _ IH]; [reflexivity|].
  unfold Metrics.unique_labels in *. simpl. rewrite IH.
  destruct Hc as [-> | ->];
    destruct (existsb (Z.eqb 0) l), (existsb (Z.eqb 1) l); reflexivity.
Qed.

Lemma existsb_In_Z (c : Z) (ys : list Z) :
  In c ys -> existsb (Z.eqb c) ys = true.
Proof.
  intros Hin. apply existsb_exists. exists c. split; auto. apply Z.eqb_refl.
Qed.

(** C5, as stated, fails: when a single class occurs among the actual
    and the rounded predicted labels, the matrix is 1x1, not 2x2. *)
Lemma conf_mat_2x2_counterexample :
  conf_mat [0%Z] [(2 # 10)%Q] = Some [[1]]
  /\ conf_mat_spec [0%Z] [(2 # 10)%Q] = [[1; 0]; [0; 0]]
  /\ conf_mat [0%Z] [(2 # 10)%Q] <> Some (conf_mat_spec [0%Z] [(2 # 10)%Q]).
Proof.
  split; [reflexivity|]. split; [reflexivity|].
  intros E. vm_compute in E. discriminate E.
Qed.

(** C5, amended. The confusion matrix is computed from the predicted
    probabilities rounded at threshold 0.5 against the true binary
    labels; when both classes occur among the actual or the rounded
    predicted labels it is the 2x2 matrix of counts with rows = actual
    class and columns = predicted class.  For predictions
    [0.9, 0.2, 0.4, 0.8] against actuals [1, 0, 0, 1] it is
    [[2, 0], [0, 2]]. *)
Theorem conf_mat_binary :
  conf_mat [1; 0; 0; 1]%Z [9 # 10; 2 # 10; 4 # 10; 8 # 10]%Q
  = Some [[2; 0]; [0; 2]]
  /\ forall (y_test : list Z) (y_pred : list Q),
      length y_test = length y_pred ->
      Forall (fun c => c = 0 \/ c = 1)%Z y_test ->
      Forall (fun p => (0 <= p <= 1)%Q) y_pred ->
      In 0%Z (y_test ++ map np_round y_pred) ->
      In 1%Z (y_test ++ map np_round y_pred) ->
      conf_mat y_test y_pred = Some (conf_mat_spec y_test y_pred).
Proof.
  split; [reflexivity|].
  intros y_test y_pred Hlen Hy Hp H0 H1.
  unfold conf_mat, Metrics.confusion_matrix, conf_mat_spec.
  rewrite length_map, Hlen, Nat.eqb_refl.
  rewrite (map_np_round_unit y_pred Hp) in *.
  destruct y_test as [|c0 ys] eqn:Ey.
  { destruct y_pred; [contradiction|discriminate]. }
  rewrite <- Ey in *.
  rewrite unique_labels_binary.
  - rewrite (existsb_In_Z _ _ H0), (existsb_In_Z _ _ H1). reflexivity.
  - apply Forall_app. split; auto.
    apply Forall_forall. intros c Hc. apply in_map_iff in Hc.
    destruct Hc as [p [<- _]]. apply threshold_half_binary.
Qed.

Lemma conf_mat_binary_witness :
  conf_mat [0; 1; 1]%Z [1 # 2; 3 # 4; 1 # 4]%Q
  = Some (conf_mat_spec [0; 1; 1]%Z [1 # 2; 3 # 4; 1 # 4]%Q).
Proof.
  apply (proj2 conf_mat_binary [0; 1; 1]%Z [1 # 2; 3 # 4; 1 # 4]%Q).
  - reflexivity.
  - repeat (constructor; [lia|]). constructor.
  - repeat (constructor; [unfold Qle; simpl; lia|]). constructor.
  - simpl. auto.
  - simpl. auto.
Defined.

(** C10. A predicted probability exactly equal to 0.5 is rounded to 0
    (half to even) and so is counted as a predicted negative; on
    probabilities the rounded label is 1 exactly above one half. *)
Theorem half_is_predicted_negative (p : Q) :
  (p == 1 # 2)%Q ->
  np_round p = 0%Z
  /\ (forall y : Z, conf_mat [y] [p] = Metrics.confusion_matrix [y] [0%Z])
  /\ forall q : Q, (0 <= q <= 1)%Q -> (np_round q = 1%Z <-> (p < q)%Q).
Proof.
  intros Hp.
  assert (Hr : np_round p = 0%Z).
  { rewrite np_round_unit by lra. unfold threshold_half.
    replace (Qle_bool p (1 # 2)) with true; [reflexivity|].
    symmetry. apply Qle_bool_iff. lra. }
  split; [exact Hr|]. split.
  - intros y. unfold conf_mat. simpl. now rewrite Hr.
  - intros q Hq. rewrite (np_round_unit q Hq). unfold threshold_half.
    destruct (Qle_bool q (1 # 2)) eqn:E.
    + apply Qle_bool_iff in E. split; [discriminate|lra].
    + split; [|reflexivity]. intros _.
      destruct (Qlt_le_dec p q) as [Hlt|Hle]; [exact Hlt|].
      assert (Hq' : Qle_bool q (1 # 2) = true) by (apply Qle_bool_iff; lra).
      congruence.
Qed.

Lemma half_is_predicted_negative_witness :
  np_round (1 # 2) = 0%Z
  /\ (forall y : Z,
        conf_mat [y] [(1 # 2)%Q] = Metrics.confusion_matrix [y] [0%Z])
  /\ forall q : Q, (0 <= q <= 1)%Q -> (np_round q = 1%Z <-> (1 # 2 < q)%Q).
Proof.
  apply (half_is_predicted_negative (1 # 2)). reflexivity.
Defined.

(** ** Ranking of the trials *)

Import Tuner.

Lemma insert_trial_Permutation (t : Trial) (l : list Trial) :
  Permutation (insert_trial t l) (t :: l).
Proof.
  induction l as [|u l IH]; simpl; auto.
  destruct (Qlt_le_dec (score t) (score u)); auto.
  rewrite IH. apply perm_swap.
Qed.

Lemma rank_trials_Permutation (l : list Trial) :
  Permutation (rank_trials l) l.
Proof.
  induction l as [|t l IH]; simpl; auto.
  rewrite insert_trial_Permutation. now constructor.
Qed.

Lemma insert_trial_sorted (t : Trial) (l : list Trial) :
  StronglySorted ahead l ->
  Forall (fun u => trial_id t < trial_id u) l ->
  StronglySorted ahead (insert_trial t l).
Proof.
  induction 1 as [|u l Hs IH Hu]; intros Hid; simpl.
  - repeat constructor.
  - inversion Hid as [|? ? Hidu Hidl]; subst.
    destruct (Qlt_le_dec (score t) (score u)) as [Hlt|Hle].
    + constructor; auto.
      eapply Permutation_Forall.
      * symmetry. apply insert_trial_Permutation.
      * constructor; auto. now left.
    + constructor; [constructor; auto|].
      assert (Hall : Forall (fun v => (score v <= score t)%Q
                                      /\ trial_id t < trial_id v) (u :: l)).
      { constructor; [auto|].
        rewrite Forall_forall in *. intros v Hv. split; [|auto].
        destruct (Hu v Hv) as [Hv'|[Hv' _]]; lra. }
      eapply Forall_impl; [|exact Hall].
      intros v [Hv Hidv]. unfold ahead.
      destruct (Qlt_le_dec (score v) (score t)) as [H1|H1]; [now left|].
      right. split; [lra|exact Hidv].
Qed.

Lemma trials_from_ids (i : nat) (results : list (list Z * Q)) :
  Forall (fun t => i <= trial_id t) (trials_from i results)
  /\ StronglySorted (fun a b => trial_id a < trial_id b) (trials_from i results).
Proof.
  revert i. induction results as [|[hp s] rest IH]; intros i; simpl.
  - split; constructor.
  - destruct (IH (S i)) as [Hge Hs]. split.
    + constructor; [simpl; lia|].
      eapply Forall_impl; [|exact Hge]. simpl. intros; lia.
    + constructor; [exact Hs|].
      eapply Forall_impl; [|exact Hge]. simpl. intros; lia.
Qed.

Lemma rank_trials_sorted (l : list Trial) :
  StronglySorted (fun a b => trial_id a < trial_id b) l ->
  StronglySorted ahead (rank_trials l).
Proof.
  induction 1 as [|t l _ IH Ht]; simpl.
  - constructor.
  - apply insert_trial_sorted; auto.
    eapply Permutation_Forall; [|exact Ht].
    symmetry. apply rank_trials_Permutation.
Qed.

Lemma StronglySorted_weaken {A : Type} (R S : A -> A -> Prop) (l : list A) :
  (forall a b, R a b -> S a b) -> StronglySorted R l -> StronglySorted S l.
Proof.
  intros HRS. induction 1 as [|a l _ IH Ha]; constructor; auto.
  eapply Forall_impl; [|exact Ha]. auto.
Qed.

Lemma StronglySorted_firstn {A : Type} (R : A -> A -> Prop) (n : nat) (l : list A) :
  StronglySorted R l -> StronglySorted R (firstn n l).
Proof.
  intros Hs. revert n. induction Hs as [|a l _ IH Ha]; intros [|n]; simpl;
    try constructor; auto.
  rewrite Forall_forall in *. intros x Hx. apply Ha.
  rewrite <- (firstn_skipn n l). apply in_or_app. now left.
Qed.

Lemma ahead_score (a b : Trial) : ahead a b -> (score b <= score a)%Q.
Proof. intros [H|[H _]]; lra. Qed.

(** C7. The trials come back ranked in non-increasing order of their
    objective, equal objectives in the order of their trial index; the
    ranking loses no trial, and the element the notebook reads (index
    0) achieves the maximum observed objective, being the earliest of
    the trials that do. *)
Theorem rank_trials_best_first (results : list (list Z * Q)) :
  Permutation (rank_trials (trials_from 0 results)) (trials_from 0 results)
  /\ StronglySorted ahead (rank_trials (trials_from 0 results))
  /\ (forall n,
        StronglySorted (fun a b => (score b <= score a)%Q)
                       (get_best_trials n (trials_from 0 results)))
  /\ (results <> [] ->
      exists best,
        get_best_trials 1 (trials_from 0 results) = [best]
        /\ get_best_hyperparameters (trials_from 0 results)
           = [hyperparameters best]
        /\ In best (trials_from 0 results)
        /\ forall t, In t (trials_from 0 results) ->
             (score t <= score best)%Q
             /\ ((score t == score best)%Q -> trial_id best <= trial_id t)).
Proof.
  pose proof (rank_trials_Permutation (trials_from 0 results)) as Hperm.
  pose proof (rank_trials_sorted _ (proj2 (trials_from_ids 0 results))) as Hs.
  split; [exact Hperm|]. split; [exact Hs|]. split.
  - intros n. unfold get_best_trials. apply StronglySorted_firstn.
    eapply StronglySorted_weaken; [|exact Hs]. intros a b. apply ahead_score.
  - intros Hne. unfold get_best_hyperparameters, get_best_trials.
    destruct (rank_trials (trials_from 0 results)) as [|best rest] eqn:E.
    + apply Permutation_nil in Hperm.
      destruct results as [|[hp s] rest]; [congruence|discriminate].
    + exists best. simpl. split; [reflexivity|]. split; [reflexivity|].
      split; [eapply Permutation_in; [exact Hperm|now left]|].
      intros t Ht.
      apply (Permutation_in _ (Permutation_sym Hperm)) in Ht.
      inversion Hs as [|? ? _ Hbest]; subst.
      destruct Ht as [<-|Ht]; [split; [lra|lia]|].
      rewrite Forall_forall in Hbest.
      destruct (Hbest t Ht) as [Hlt|[Heq Hid]].
      * split; [lra|]. intros Htie. exfalso. lra.
      * split; [lra|]. intros _. lia.
Qed.

Lemma rank_trials_best_first_witness :
  exists best,
    get_best_trials 1
      (trials_from 0 [([64; 1]%Z, (85 # 100)%Q); ([128; 2]%Z, (86 # 100)%Q);
                      ([256; 1]%Z, (43 # 50)%Q)]) = [best]
    /\ get_best_hyperparameters
         (trials_from 0 [([64; 1]%Z, (85 # 100)%Q); ([128; 2]%Z, (86 # 100)%Q);
                         ([256; 1]%Z, (43 # 50)%Q)])
       = [hyperparameters best]
    /\ In best
         (trials_from 0 [([64; 1]%Z, (85 # 100)%Q); ([128; 2]%Z, (86 # 100)%Q);
                         ([256; 1]%Z, (43 # 50)%Q)])
    /\ forall t,
         In t (trials_from 0 [([64; 1]%Z, (85 # 100)%Q);
                              ([128; 2]%Z, (86 # 100)%Q);
                              ([256; 1]%Z, (43 # 50)%Q)]) ->
         (score t <= score best)%Q
         /\ ((score t == score best)%Q -> trial_id best <= trial_id t).
Proof.
  apply (proj2 (proj2 (proj2 (rank_trials_best_first
           [([64; 1]%Z, (85 # 100)%Q); ([128; 2]%Z, (86 # 100)%Q);
            ([256; 1]%Z, (43 # 50)%Q)])))).
  discriminate.
Defined.

(** ** The trial loop *)

Import Search.

Lemma run_trials_length (propose : list TrialResult -> list Z)
  (train : list Z -> Objective) (budget : nat) (history : list TrialResult) :
  length (run_trials propose train budget history) = length history + budget.
Proof.
  revert history. induction budget as [|k IH]; intros history; simpl.
  - lia.
  - rewrite IH, length_app. simpl. lia.
Qed.

(** Every recorded trial was proposed from the trials before it and
    carries what its training gave; the loop keeps this true. *)
Lemma run_trials_invariant (propose : list TrialResult -> list Z)
  (train : list Z -> Objective) (budget : nat) (history : list TrialResult) :
  (forall i t, nth_error history i = Some t ->
     index t = i /\ vector t = propose (firstn i history)
     /\ objective t = record_objective (train (vector t))) ->
  forall i t, nth_error (run_trials propose train budget history) i = Some t ->
    index t = i
    /\ vector t = propose (firstn i (run_trials propose train budget history))
    /\ objective t = record_objective (train (vector t)).
Proof.
  revert history. induction budget as [|k IH]; intros history Hinv; simpl.
  - exact Hinv.
  - apply IH. intros i t Hi.
    destruct (Nat.lt_ge_cases i (length history)) as [Hlt|Hge].
    + rewrite nth_error_app1 in Hi by exact Hlt.
      rewrite firstn_app.
      replace (i - length history) with 0 by lia.
      rewrite firstn_O, app_nil_r. now apply Hinv.
    + rewrite nth_error_app2 in Hi by exact Hge.
      destruct (i - length history) as [|d] eqn:Ed.
      * simpl in Hi. injection Hi as <-.
        assert (Ei : i = length history) by lia. subst i.
        rewrite firstn_app, Nat.sub_diag, firstn_O, app_nil_r, firstn_all.
        simpl. auto.
      * simpl in Hi. destruct d; discriminate.
Qed.

Lemma insert_result_Permutation (t : TrialResult) (l : list TrialResult) :
  Permutation (insert_result t l) (t :: l).
Proof.
  induction l as [|u l IH]; simpl; auto.
  destruct (worse (objective t) (objective u)); auto.
  rewrite IH. apply perm_swap.
Qed.

Lemma rank_results_Permutation (l : list TrialResult) :
  Permutation (rank_results l) l.
Proof.
  induction l as [|t l IH]; simpl; auto.
  rewrite insert_result_Permutation. now constructor.
Qed.

Lemma worse_asym (a b : Recorded) : worse a b = true -> worse b a = false.
Proof.
  destruct a as [|x], b as [|z]; simpl; auto; try discriminate.
  intros H. apply negb_true_iff in H. apply negb_false_iff.
  apply Qle_bool_iff.
  destruct (Qlt_le_dec z x) as [Hlt|Hle].
  - assert (Hb : Qle_bool z x = true) by (apply Qle_bool_iff; lra).
    congruence.
  - exact Hle.
Qed.

Lemma not_worse_trans (a b c : Recorded) :
  worse a b = false -> worse b c = false -> worse a c = false.
Proof.
  destruct a as [|x], b as [|z], c as [|w]; simpl; auto; try discriminate.
  intros H1 H2. apply negb_false_iff in H1, H2. apply negb_false_iff.
  apply Qle_bool_iff in H1, H2. apply Qle_bool_iff. lra.
Qed.

Lemma insert_result_sorted (t : TrialResult) (l : list TrialResult) :
  StronglySorted (fun a b => worse (objective a) (objective b) = false) l ->
  StronglySorted (fun a b => worse (objective a) (objective b) = false)
                 (insert_result t l).
Proof.
  induction 1 as [|u l Hs IH Hu]; simpl.
  - repeat constructor.
  - destruct (worse (objective t) (objective u)) eqn:E.
    + constructor; [exact IH|].
      eapply Permutation_Forall.
      * symmetry. apply insert_result_Permutation.
      * constructor; [now apply worse_asym|exact Hu].
    + constructor; [now constructor|].
      constructor; [exact E|].
      eapply Forall_impl; [|exact Hu]. simpl. intros v Hv.
      now apply (not_worse_trans _ (objective u)).
Qed.

Lemma rank_results_sorted (l : list TrialResult) :
  StronglySorted (fun a b => worse (objective a) (objective b) = false)
                 (rank_results l).
Proof.
  induction l as [|t l IH]; simpl.
  - constructor.
  - now apply insert_result_sorted.
Qed.

(** C8. A trial whose training diverges is recorded with objective
    -infinity and the search goes on: all [max_trials] trials are run,
    each proposed from the trials recorded before it, a trial is
    recorded with -infinity exactly when its training gave
    not-a-number, and the ranking keeps every trial, the diverged ones
    after all the others.  The search has no failing outcome. *)
Theorem search_survives_divergence
  (propose : list TrialResult -> list Z) (train : list Z -> Objective)
  (max_trials : nat) :
  length (search propose train max_trials) = max_trials
  /\ (forall i, i < max_trials ->
        exists t,
          nth_error (search propose train max_trials) i = Some t
          /\ index t = i
          /\ vector t = propose (firstn i (search propose train max_trials))
          /\ objective t = record_objective (train (vector t))
          /\ (train (vector t) = NaN <-> objective t = NegInfinity))
  /\ Permutation (rank_results (search propose train max_trials))
                 (search propose train max_trials)
  /\ StronglySorted
       (fun a b => objective a = NegInfinity -> objective b = NegInfinity)
       (rank_results (search propose train max_trials)).
Proof.
  assert (Hlen : length (search propose train max_trials) = max_trials).
  { unfold search. now rewrite run_trials_length. }
  split; [exact Hlen|]. split; [|split].
  - intros i Hi.
    destruct (nth_error (search propose train max_trials) i) as [t|] eqn:Et.
    2:{ apply nth_error_None in Et. lia. }
    exists t. split; [reflexivity|].
    destruct (run_trials_invariant propose train max_trials []) with (i := i) (t := t)
      as [Hidx [Hvec Hobj]].
    + intros j u Hj. destruct j; discriminate.
    + exact Et.
    + split; [exact Hidx|]. split; [exact Hvec|]. split; [exact Hobj|].
      rewrite Hobj. destruct (train (vector t)); simpl; split;
        (reflexivity || discriminate).
  - apply rank_results_Permutation.
  - eapply StronglySorted_weaken; [|apply rank_results_sorted].
    intros a b Hab Ha. cbv beta in Hab. rewrite Ha in Hab.
    destruct (objective b); [reflexivity|discriminate].
Qed.

Lemma search_survives_divergence_witness :
  exists t,
    nth_error (search widen diverges_at_64 3) 1 = Some t
    /\ index t = 1
    /\ vector t = widen (firstn 1 (search widen diverges_at_64 3))
    /\ objective t = record_objective (diverges_at_64 (vector t))
    /\ (diverges_at_64 (vector t) = NaN <-> objective t = NegInfinity).
Proof.
  apply (proj1 (proj2 (search_survives_divergence widen diverges_at_64 3))).
  lia.
Defined.

(** ** Permutation importance *)

Import Eli5.

Lemma plan_pass_spec `{RandomState} (g : rng) (n_rows n_cols : nat) :
  length (fst (plan_pass g n_rows n_cols)) = n_cols
  /\ Forall (fun p => Permutation p (seq 0 n_rows))
            (fst (plan_pass g n_rows n_cols)).
Proof.
  revert g. induction n_cols as [|c IH]; intros g; simpl.
  - split; constructor.
  - pose proof (permutation_spec g n_rows) as Hp.
    destruct (permutation g n_rows) as [p g1]. simpl in Hp.
    specialize (IH g1). destruct (plan_pass g1 n_rows c) as [rest g2].
    simpl in *. destruct IH as [Hl Hf]. split; [now rewrite Hl|].
    constructor; auto.
Qed.

Lemma shuffle_plan_spec `{RandomState} (n_iter : nat) (g : rng) (n_rows n_cols : nat) :
  length (shuffle_plan n_iter g n_rows n_cols) = n_iter
  /\ Forall (fun pass => length pass = n_cols
                         /\ Forall (fun p => Permutation p (seq 0 n_rows)) pass)
            (shuffle_plan n_iter g n_rows n_cols).
Proof.
  revert g. induction n_iter as [|k IH]; intros g; simpl.
  - split; constructor.
  - pose proof (plan_pass_spec g n_rows n_cols) as Hp.
    destruct (plan_pass g n_rows n_cols) as [pass g1]. simpl in Hp.
    destruct (IH g1) as [Hl Hf]. simpl. split; [now rewrite Hl|].
    constructor; auto.
Qed.

(** One pass scores the matrices obtained along the pass of the plan. *)
Lemma scores_shuffled_plan `{RandomState}
  (score_func : list (list Q) -> list Z -> Q)
  (g : rng) (X : list (list Q)) (y : list Z) (columns : list nat) :
  scores_shuffled score_func g X y columns
  = (zip_with (fun j p => score_func (shuffle_column X j p) y) columns
              (fst (plan_pass g (length X) (length columns))),
     snd (plan_pass g (length X) (length columns))).
Proof.
  revert g. induction columns as [|j cols IH]; intros g; simpl; auto.
  destruct (permutation g (length X)) as [p g1].
  rewrite IH.
  destruct (plan_pass g1 (length X) (length cols)) as [rest g2].
  reflexivity.
Qed.

Lemma score_decreases_plan `{RandomState}
  (score_func : list (list Q) -> list Z -> Q)
  (n_iter : nat) (g : rng) (X : list (list Q)) (y : list Z)
  (columns : list nat) (base_score : Q) :
  score_decreases score_func n_iter g X y columns base_score
  = map (fun pass =>
           map (fun s => (- s + base_score)%Q)
               (zip_with (fun j p => score_func (shuffle_column X j p) y)
                         columns pass))
        (shuffle_plan n_iter g (length X) (length columns)).
Proof.
  revert g. induction n_iter as [|k IH]; intros g; simpl; auto.
  rewrite scores_shuffled_plan.
  destruct (plan_pass g (length X) (length columns)) as [pass g1].
  simpl. now rewrite IH.
Qed.

Lemma nth_zip_with_seq {B C : Type} (h : nat -> B -> C) (a w j : nat)
  (pass : list B) (d : C) (d' : B) :
  length pass = w -> j < w ->
  nth j (zip_with h (seq a w) pass) d = h (a + j) (nth j pass d').
Proof.
  revert a j pass. induction w as [|w IH]; intros a j pass Hl Hj; [lia|].
  destruct pass as [|b pass]; [discriminate|]. simpl in *.
  destruct j as [|j].
  - now rewrite Nat.add_0_r.
  - rewrite (IH (S a) j pass) by lia. f_equal. lia.
Qed.

Lemma length_zip_with {A B C : Type} (f : A -> B -> C) (xs : list A) (ys : list B) :
  length xs = length ys -> length (zip_with f xs ys) = length xs.
Proof.
  revert ys. induction xs as [|x xs IH]; intros [|y ys] Hl; simpl in *;
    try discriminate; auto.
Qed.

(** Column [j] of the table of score decreases. *)
Lemma column_score_decreases `{RandomState}
  (score_func : list (list Q) -> list Z -> Q)
  (n_iter : nat) (g : rng) (X : list (list Q)) (y : list Z)
  (w : nat) (base_score : Q) (j : nat) :
  j < w ->
  column (score_decreases score_func n_iter g X y (seq 0 w) base_score) j
  = map (fun s => (- s + base_score)%Q)
        (map (fun p => score_func (shuffle_column X j p) y)
             (map (fun pass => nth j pass [])
                  (shuffle_plan n_iter g (length X) w))).
Proof.
  intros Hj. rewrite score_decreases_plan, length_seq.
  destruct (shuffle_plan_spec n_iter g (length X) w) as [_ Hf].
  unfold column. rewrite !map_map.
  apply map_ext_in. intros pass Hin.
  rewrite Forall_forall in Hf. destruct (Hf pass Hin) as [Hl _].
  rewrite (nth_indep _ 0%Q (- 0 + base_score)%Q)
    by (rewrite length_map, length_zip_with, length_seq; rewrite ?length_seq; auto).
  rewrite (map_nth (fun s => (- s + base_score)%Q)).
  now rewrite (nth_zip_with_seq _ 0 w j pass 0%Q [] Hl Hj).
Qed.

Lemma Qsum_decreases (base_score : Q) (l : list Q) :
  (Qsum (map (fun s => - s + base_score) l)
   == - Qsum l + inject_Z (Z.of_nat (length l)) * base_score)%Q.
Proof.
  induction l as [|s l IH].
  - simpl. unfold inject_Z. ring.
  - change (Qsum (map (fun s0 => - s0 + base_score) (s :: l)))%Q
      with (- s + base_score + Qsum (map (fun s0 => - s0 + base_score) l))%Q.
    change (Qsum (s :: l)) with (s + Qsum l)%Q.
    rewrite IH. simpl length.
    rewrite Nat2Z.inj_succ, <- Z.add_1_r, inject_Z_plus.
    change (inject_Z 1) with 1%Q. ring.
Qed.

(** The mean of the decreases is the baseline minus the mean score. *)
Lemma mean_decreases (base_score : Q) (l : list Q) :
  l <> [] ->
  (mean (map (fun s => - s + base_score) l) == base_score - mean l)%Q.
Proof.
  intros Hne. unfold mean. rewrite length_map, Qsum_decreases.
  assert (Hn : ~ (inject_Z (Z.of_nat (length l)) == 0)%Q).
  { destruct l as [|s l]; [congruence|].
    simpl length. rewrite Nat2Z.inj_succ. unfold Qeq, inject_Z. simpl. lia. }
  field. exact Hn.
Qed.

Lemma nth_set_nth_other (j k : nat) (v : Q) (row : list Q) :
  k <> j -> nth k (set_nth j v row) 0%Q = nth k row 0%Q.
Proof.
  revert j k. induction row as [|x row IH]; intros [|j] [|k] Hne; simpl;
    auto; try congruence.
Qed.

Lemma nth_set_nth_same (j : nat) (v : Q) (row : list Q) :
  j < length row -> nth j (set_nth j v row) 0%Q = v.
Proof.
  revert j. induction row as [|x row IH]; intros [|j] Hj; simpl in *;
    auto; try lia. apply IH. lia.
Qed.

Lemma column_zip_set_other (X : list (list Q)) (vs : list Q) (j k : nat) :
  length vs = length X -> k <> j ->
  column (zip_with (fun row v => set_nth j v row) X vs) k = column X k.
Proof.
  revert vs. induction X as [|row X IH]; intros [|v vs] Hl Hne; simpl in *;
    try discriminate; auto.
  rewrite nth_set_nth_other by auto. f_equal. apply IH; auto.
Qed.

Lemma column_zip_set_same (X : list (list Q)) (vs : list Q) (j : nat) :
  length vs = length X ->
  Forall (fun row => j < length row) X ->
  column (zip_with (fun row v => set_nth j v row) X vs) j = vs.
Proof.
  intros Hl Hw. revert vs Hl.
  induction Hw as [|row X Hrow _ IH]; intros [|v vs] Hl; simpl in *;
    try discriminate; auto.
  rewrite nth_set_nth_same by auto. f_equal. apply IH. lia.
Qed.

Lemma map_nth_seq_shift (pre col : list Q) :
  map (fun i => nth i (pre ++ col) 0%Q) (seq (length pre) (length col)) = col.
Proof.
  revert pre. induction col as [|x col IH]; intros pre; simpl; auto.
  rewrite app_nth2, Nat.sub_diag by lia. simpl. f_equal.
  specialize (IH (pre ++ [x])).
  rewrite length_app, Nat.add_1_r in IH.
  rewrite <- IH at 2. apply map_ext. intros i.
  now rewrite <- app_assoc.
Qed.

Lemma permute_Permutation (col : list Q) (p : list nat) :
  Permutation p (seq 0 (length col)) -> Permutation (permute col p) col.
Proof.
  intros Hp. unfold permute.
  rewrite (Permutation_map (fun i => nth i col 0%Q) Hp).
  pose proof (map_nth_seq_shift [] col) as E. simpl in E.
  now rewrite E.
Qed.

(** Shuffling column [j] rearranges that column and leaves every other
    column as it was. *)
Lemma shuffle_column_spec (X : list (list Q)) (j : nat) (p : list nat) :
  Forall (fun row => j < length row) X ->
  Permutation p (seq 0 (length X)) ->
  Permutation (column (shuffle_column X j p) j) (column X j)
  /\ forall k, k <> j -> column (shuffle_column X j p) k = column X k.
Proof.
  intros Hw Hp.
  assert (Hl : length (permute (column X j) p) = length X).
  { unfold permute. rewrite length_map, (Permutation_length Hp).
    apply length_seq. }
  unfold shuffle_column. split.
  - rewrite column_zip_set_same by auto.
    apply permute_Permutation. unfold column. now rewrite length_map.
  - intros k Hk. now apply column_zip_set_other.
Qed.

(** C9. For every feature the ranker's importance is the baseline score
    minus the mean, over the repeats, of the score obtained with that
    one column permuted and every other column untouched; the result
    has one score per feature. *)
Theorem permutation_importance_formula `{RandomState}
  (score_func : list (list Q) -> list Z -> Q)
  (n_iter : nat) (seed : Z) (X : list (list Q)) (y : list Z) :
  1 <= n_iter ->
  Forall (fun row => length row = width X) X ->
  length (feature_importances_ score_func n_iter seed X y) = width X
  /\ forall j, j < width X ->
       (exists v,
           nth_error (feature_importances_ score_func n_iter seed X y) j = Some v
           /\ (v == importance_spec score_func n_iter seed X y j)%Q)
       /\ length (shuffles_of n_iter seed X j) = n_iter
       /\ Forall (fun p =>
                    Permutation (column (shuffle_column X j p) j) (column X j)
                    /\ forall k, k <> j ->
                         column (shuffle_column X j p) k = column X k)
                 (shuffles_of n_iter seed X j).
Proof.
  intros Hn Hrect.
  destruct (shuffle_plan_spec n_iter (RandomState_seed seed) (length X) (width X))
    as [Hplen Hpf].
  split.
  { unfold feature_importances_, mean_axis0. now rewrite length_map, length_seq. }
  intros j Hj.
  assert (Hlen : length (shuffles_of n_iter seed X j) = n_iter).
  { unfold shuffles_of. now rewrite length_map. }
  split; [|split; [exact Hlen|]].
  - eexists. split.
    + unfold feature_importances_, mean_axis0.
      rewrite nth_error_map, nth_error_seq.
      destruct (Nat.ltb_spec j (width X)) as [_|Hge]; [|lia].
      simpl. reflexivity.
    + rewrite column_score_decreases by exact Hj.
      unfold importance_spec. fold (shuffles_of n_iter seed X j).
      apply mean_decreases.
      intros E. apply (f_equal (@length Q)) in E.
      rewrite length_map, Hlen in E. simpl in E. lia.
  - unfold shuffles_of. apply Forall_forall. intros p Hin.
    apply in_map_iff in Hin. destruct Hin as [pass [<- Hpass]].
    rewrite Forall_forall in Hpf. destruct (Hpf pass Hpass) as [Hl Hperm].
    apply shuffle_column_spec.
    + eapply Forall_impl; [|exact Hrect]. simpl. intros row Hrow. lia.
    + rewrite Forall_forall in Hperm. apply Hperm. apply nth_In. lia.
Qed.

Lemma permutation_importance_formula_witness :
  length (feature_importances_ (H := tape) first_feature_score 5 1
            held_out_X held_out_y) = width held_out_X
  /\ forall j, j < width held_out_X ->
       (exists v,
           nth_error (feature_importances_ (H := tape) first_feature_score 5 1
                        held_out_X held_out_y) j = Some v
           /\ (v == importance_spec (H := tape) first_feature_score 5 1
                      held_out_X held_out_y j)%Q)
       /\ length (shuffles_of (H := tape) 5 1 held_out_X j) = 5
       /\ Forall (fun p =>
                    Permutation (column (shuffle_column held_out_X j p) j)
                                (column held_out_X j)
                    /\ forall k, k <> j ->
                         column (shuffle_column held_out_X j p) k
                         = column held_out_X k)
                 (shuffles_of (H := tape) 5 1 held_out_X j).
Proof.
  apply (@permutation_importance_formula tape first_feature_score 5 1
           held_out_X held_out_y).
  - lia.
  - repeat constructor.
Defined.

(** ** Reproducibility *)




(** * Further properties of the notebook's steps *)

(** ** Class balancing: failure and shape of the result *)

(** X1. [balance] raises exactly when there are negatives to match and no
    positive to draw from. *)
Theorem balance_fails_iff `{RandomState} (g : rng) (data : Dataset) :
  balance g data = None
  <-> class_count 1 data = 0 /\ 0 < class_count 0 data.
Proof.
  unfold class_count. fold (diabetes_group data) (nodiabetes_group data).
  split.
  - intros Hb.
    destruct (diabetes_group data) as [|r df] eqn:Ed.
    + split; [reflexivity|].
      destruct (nodiabetes_group data) as [|r0 l0] eqn:En; [|simpl; lia].
      exfalso. unfold balance in Hb. rewrite Ed, En in Hb.
      destruct (sample_some g [] 0 (or_intror eq_refl)) as [s [g' [Hs _]]].
      simpl length in Hb. rewrite Hs in Hb. discriminate.
    + exfalso. unfold balance in Hb. rewrite Ed in Hb.
      assert (Hne : r :: df <> []) by discriminate.
      destruct (sample_some g (r :: df) (length (nodiabetes_group data))
                  (or_introl Hne)) as [s [g' [Hs _]]].
      rewrite Hs in Hb. discriminate.
  - intros [H1 H0]. apply length_zero_iff_nil in H1.
    unfold balance. rewrite H1.
    destruct (length (nodiabetes_group data)); [lia|reflexivity].
Qed.

Lemma balance_fails_iff_witness :
  balance (H := tape) [3; 1] [mkRow 0 [20 # 1]%Q; mkRow 0 [25 # 1]%Q] = None.
Proof.
  apply (proj2 (@balance_fails_iff tape [3; 1]
                  [mkRow 0 [20 # 1]%Q; mkRow 0 [25 # 1]%Q])).
  split; vm_compute; lia.
Defined.

(** X2. Whenever [balance] returns, the result has twice as many rows as
    the input has negatives; the negatives are the input's, in their
    order; the positives number as many; rows with any other label are
    gone. *)
Theorem balance_output_shape `{RandomState}
  (g : rng) (data out : Dataset) (g' : rng) :
  balance g data = Some (out, g') ->
  length out = 2 * class_count 0 data
  /\ select_label 0 out = select_label 0 data
  /\ class_count 1 out = class_count 0 data
  /\ Forall (fun r => Diabetes_binary r = 0 \/ Diabetes_binary r = 1)%Z out.
Proof.
  intros Hb. destruct (balance_inv _ _ _ _ Hb) as [s [-> Hs]].
  pose proof (sample_length _ _ _ _ _ Hs) as Hlen.
  pose proof (sample_In _ _ _ _ _ Hs) as Hin.
  unfold nodiabetes_group, diabetes_group in *.
  assert (Hs1 : Forall (fun r => Diabetes_binary r = 1%Z) s).
  { rewrite Forall_forall in *. intros r Hr.
    pose proof (select_label_label 1 data) as Hl.
    rewrite Forall_forall in Hl. apply Hl. now apply Hin. }
  pose proof (select_label_label 0 data) as H0.
  split; [|split; [|split]].
  - rewrite length_app, Hlen. unfold class_count. lia.
  - unfold select_label at 1. rewrite filter_app.
    rewrite (filter_none _ s).
    + simpl. apply filter_all.
      eapply Forall_impl; [|exact H0]. intros r Hr. now apply Z.eqb_eq.
    + eapply Forall_impl; [|exact Hs1]. intros r Hr. simpl in Hr.
      apply Z.eqb_neq. lia.
  - rewrite class_count_app, (class_count_same _ _ Hs1).
    rewrite (class_count_other 0 1 (select_label 0 data)) by (auto; lia).
    unfold class_count. lia.
  - apply Forall_app. split.
    + eapply Forall_impl; [|exact Hs1]. simpl. intros; lia.
    + eapply Forall_impl; [|exact H0]. simpl. intros; lia.
Qed.

Lemma balance_output_shape_witness :
  length ([mkRow 1 [30 # 1]%Q; mkRow 0 [20 # 1]%Q]) = 2 * class_count 0 mostly_positive
  /\ select_label 0 [mkRow 1 [30 # 1]%Q; mkRow 0 [20 # 1]%Q]
     = select_label 0 mostly_positive
  /\ class_count 1 [mkRow 1 [30 # 1]%Q; mkRow 0 [20 # 1]%Q]
     = class_count 0 mostly_positive
  /\ Forall (fun r => Diabetes_binary r = 0 \/ Diabetes_binary r = 1)%Z
            [mkRow 1 [30 # 1]%Q; mkRow 0 [20 # 1]%Q].
Proof.
  apply (@balance_output_shape tape [0] mostly_positive _ []).
  reflexivity.
Defined.

Lemma filter_label_column (c : Z) (data : Dataset) :
  length (filter (fun l => l =? c)%Z (label_column data)) = class_count c data.
Proof.
  unfold class_count, select_label, label_column.
  induction data as [|r data IH]; simpl; auto.
  destruct (Diabetes_binary r =? c)%Z; simpl; now rewrite IH.
Qed.

(** X3. After balancing, the naive baseline of line 134 (the share of
    negatives) is exactly one half. *)
Theorem naive_accuracy_balanced `{RandomState}
  (g : rng) (data out : Dataset) (g' : rng) :
  balance g data = Some (out, g') ->
  0 < class_count 0 data ->
  (naive_accuracy (label_column out) == 1 # 2)%Q.
Proof.
  intros Hb Hpos.
  destruct (balance_output_shape g data out g' Hb) as [Hlen [Hsel _]].
  unfold naive_accuracy.
  rewrite filter_label_column. unfold class_count at 1. rewrite Hsel.
  fold (class_count 0 data).
  unfold label_column. rewrite length_map, Hlen.
  rewrite Nat2Z.inj_mul, inject_Z_mult.
  change (inject_Z (Z.of_nat 2)) with 2%Q.
  assert (Hn : ~ (inject_Z (Z.of_nat (class_count 0 data)) == 0)%Q).
  { unfold Qeq, inject_Z. simpl. lia. }
  field. exact Hn.
Qed.

Lemma naive_accuracy_balanced_witness :
  (naive_accuracy
     (label_column [mkRow 1 [30 # 1]%Q; mkRow 0 [20 # 1]%Q]) == 1 # 2)%Q.
Proof.
  apply (@naive_accuracy_balanced tape [0] mostly_positive _ []).
  - reflexivity.
  - vm_compute. lia.
Defined.

(** ** The train/test split: failure, sizes, pairing *)

Lemma n_test_of_small (n : nat) : n - n_test_of n = 0 <-> n < 2.
Proof.
  split.
  - intros E. destruct (Nat.lt_ge_cases n 2) as [Hlt|Hge]; [exact Hlt|].
    destruct (n_test_of_lt n Hge). lia.
  - intros Hn. destruct n as [|[|n]]; [reflexivity|reflexivity|lia].
Qed.

Lemma train_test_split_inv `{RandomState} {A B : Type}
  (X : list A) (y : list B) X_train X_test y_train y_test :
  train_test_split X y = Some (X_train, X_test, y_train, y_test) ->
  length y = length X /\ 2 <= length X
  /\ take X (fst (split_indices (length X))) = Some X_train
  /\ take X (snd (split_indices (length X))) = Some X_test
  /\ take y (fst (split_indices (length X))) = Some y_train
  /\ take y (snd (split_indices (length X))) = Some y_test.
Proof.
  unfold train_test_split. intros Hs.
  destruct (length y =? length X) eqn:El; [|discriminate].
  apply Nat.eqb_eq in El. cbv [negb] in Hs.
  destruct (length X - n_test_of (length X) =? 0) eqn:En; [discriminate|].
  apply Nat.eqb_neq in En.
  assert (Hn : 2 <= length X).
  { destruct (Nat.lt_ge_cases (length X) 2) as [Hlt|Hge]; [|exact Hge].
    apply n_test_of_small in Hlt. lia. }
  destruct (split_indices (length X)) as [ind_train ind_test]. simpl.
  destruct (take X ind_train) as [a|]; [|discriminate].
  destruct (take X ind_test) as [b|]; [|discriminate].
  destruct (take y ind_train) as [c|]; [|discriminate].
  destruct (take y ind_test) as [d|]; [|discriminate].
  injection Hs as <- <- <- <-. repeat split; auto.
Qed.

Lemma split_indices_length `{RandomState} (n : nat) :
  2 <= n ->
  length (fst (split_indices n)) = n - n_test_of n
  /\ length (snd (split_indices n)) = n_test_of n.
Proof.
  intros Hn. rewrite split_indices_eq. simpl.
  pose proof (Permutation_length (permutation_spec (RandomState_seed 123) n))
    as Hl.
  rewrite length_seq in Hl. destruct (n_test_of_lt n Hn).
  rewrite length_skipn, length_firstn, Hl. lia.
Qed.

Lemma nth_error_combine {A B : Type} (X : list A) (y : list B) i a b :
  nth_error X i = Some a -> nth_error y i = Some b ->
  nth_error (combine X y) i = Some (a, b).
Proof.
  revert X y. induction i as [|i IH]; intros [|x X] [|z y] Ha Hb;
    simpl in *; try discriminate.
  - congruence.
  - now apply IH.
Qed.

Lemma take_combine {A B : Type} (X : list A) (y : list B) locs a b :
  take X locs = Some a -> take y locs = Some b ->
  take (combine X y) locs = Some (combine a b).
Proof.
  revert a b. induction locs as [|i locs IH]; simpl; intros a b Ha Hb.
  - injection Ha as <-. now injection Hb as <-.
  - destruct (nth_error X i) as [x|] eqn:Ex; [|discriminate].
    destruct (take X locs) as [xs|]; [|discriminate].
    destruct (nth_error y i) as [z|] eqn:Ez; [|discriminate].
    destruct (take y locs) as [zs|]; [|discriminate].
    injection Ha as <-. injection Hb as <-.
    rewrite (nth_error_combine _ _ _ _ _ Ex Ez), (IH xs zs eq_refl eq_refl).
    reflexivity.
Qed.

(** X4. The split raises exactly when the labels do not match the rows
    in number or when fewer than two rows are given; the preparation of
    lines 63-67 raises exactly when the frame has fewer than two rows
    or no feature column. *)
Theorem split_fails_iff `{RandomState} {A B : Type}
  (X : list A) (y : list B) (data : Dataset) :
  (train_test_split X y = None <-> length y <> length X \/ length X < 2)
  /\ (prepare data = None
      <-> length data < 2 \/ width (drop_label data) = 0).
Proof.
  assert (Hsplit : forall (A' B' : Type) (X' : list A') (y' : list B'),
             train_test_split X' y' = None
             <-> length y' <> length X' \/ length X' < 2).
  { intros A' B' X' y'. split.
    - intros Hnone.
      destruct (Nat.eq_dec (length y') (length X')) as [El|Hne]; [|now left].
      right. destruct (Nat.lt_ge_cases (length X') 2) as [Hlt|Hge]; [exact Hlt|].
      destruct (train_test_split_some X' y' El Hge)
        as [a [b [c [d [Hs _]]]]]. congruence.
    - intros [Hne|Hlt]; unfold train_test_split.
      + apply Nat.eqb_neq in Hne. now rewrite Hne.
      + destruct (length y' =? length X'); [|reflexivity]. cbv [negb].
        apply n_test_of_small in Hlt. now rewrite Hlt. }
  split; [apply Hsplit|].
  unfold prepare, MinMaxScaler.fit_transform.
  destruct data as [|r data].
  - simpl. split; [intros _; left; lia|reflexivity].
  - unfold width. simpl MinMaxScaler.fit. simpl hd.
    destruct (Nat.eqb_spec (length (features r)) 0) as [E|E].
    + split; [intros _; now right|reflexivity].
    + rewrite Hsplit.
      unfold MinMaxScaler.transform, label_column, drop_label.
      rewrite !length_map. split.
      * intros [Hne|Hlt]; [congruence|now left].
      * intros [Hlt|Hz]; [now right|contradiction].
Qed.

Lemma split_fails_iff_witness :
  prepare (H := tape) [mkRow 1 []; mkRow 0 []; mkRow 0 []] = None.
Proof.
  apply (proj2 (proj2 (@split_fails_iff tape (list Q) Z [] []
                         [mkRow 1 []; mkRow 0 []; mkRow 0 []]))).
  right. reflexivity.
Defined.

(** X5. A split that succeeds keeps every row with its own label, puts
    [ceil(n / 5)] rows in the test part and the others in the training
    part. *)
Theorem train_test_split_keeps_pairs `{RandomState} {A B : Type}
  (X : list A) (y : list B) X_train X_test y_train y_test :
  train_test_split X y = Some (X_train, X_test, y_train, y_test) ->
  Permutation (combine X_test y_test ++ combine X_train y_train) (combine X y)
  /\ length X_test = n_test_of (length X)
  /\ length X_train = length X - n_test_of (length X)
  /\ length y_test = length X_test
  /\ length y_train = length X_train.
Proof.
  intros Hs.
  destruct (train_test_split_inv _ _ _ _ _ _ Hs)
    as [Hy [Hn [Htr [Hte [Hytr Hyte]]]]].
  destruct (split_indices_length (length X) Hn) as [Hltr Hlte].
  pose proof (take_length _ _ _ Htr) as L1.
  pose proof (take_length _ _ _ Hte) as L2.
  pose proof (take_length _ _ _ Hytr) as L3.
  pose proof (take_length _ _ _ Hyte) as L4.
  split; [|repeat split; congruence].
  pose proof (take_combine _ _ _ _ _ Htr Hytr) as Ctr.
  pose proof (take_combine _ _ _ _ _ Hte Hyte) as Cte.
  pose proof (take_app _ _ _ _ _ Cte Ctr) as Call.
  rewrite split_indices_eq in Call. simpl in Call.
  rewrite firstn_skipn in Call.
  pose proof (permutation_spec (RandomState_seed 123) (length X)) as Hp.
  assert (Hlc : length (combine X y) = length X).
  { rewrite length_combine. lia. }
  rewrite <- Hlc in Hp at 2.
  destruct (take_Permutation (combine X y) _ _ (Permutation_sym Hp) _
              (take_seq (combine X y))) as [r [Hr Hperm]].
  rewrite Hr in Call. injection Call as <-. now symmetry.
Qed.

Lemma train_test_split_keeps_pairs_witness :
  exists X_train X_test y_train y_test,
    train_test_split (H := tape) (drop_label visits) (label_column visits)
    = Some (X_train, X_test, y_train, y_test)
    /\ Permutation (combine X_test y_test ++ combine X_train y_train)
                   (combine (drop_label visits) (label_column visits))
    /\ length X_test = n_test_of (length (drop_label visits))
    /\ length X_train
       = length (drop_label visits) - n_test_of (length (drop_label visits))
    /\ length y_test = length X_test
    /\ length y_train = length X_train.
Proof.
  eexists _, _, _, _. split; [vm_compute; reflexivity|].
  apply (@train_test_split_keeps_pairs tape _ _
           (drop_label visits) (label_column visits)).
  vm_compute. reflexivity.
Defined.

(** X6. Balancing and preparation compose: a frame with at least one
    feature column and at least one record of each class can be
    balanced, and the balanced frame can always be scaled and split,
    [ceil(2 n0 / 5)] of its [2 n0] rows going to the test part. *)
Theorem balance_then_prepare `{RandomState} (g : rng) (data : Dataset) :
  0 < class_count 1 data ->
  0 < class_count 0 data ->
  Forall (fun r => features r <> []) data ->
  exists out g' X_train X_test y_train y_test,
    balance g data = Some (out, g')
    /\ prepare out = Some (X_train, X_test, y_train, y_test)
    /\ length X_test = n_test_of (2 * class_count 0 data)
    /\ length X_train + length X_test = 2 * class_count 0 data
    /\ Permutation (y_test ++ y_train) (label_column out).
Proof.
  intros H1 H0 Hfeat.
  assert (Hne : diabetes_group data <> []).
  { unfold class_count in H1. fold (diabetes_group data) in H1.
    intros E. rewrite E in H1. simpl in H1. lia. }
  destruct (sample_some g _ (length (nodiabetes_group data)) (or_introl Hne))
    as [smp [g' [Hs _]]].
  assert (Hb : balance g data = Some (smp ++ nodiabetes_group data, g')).
  { unfold balance. now rewrite Hs. }
  assert (Hin : Forall (fun r => In r data) (smp ++ nodiabetes_group data)).
  { apply Forall_app. split.
    - pose proof (sample_In _ _ _ _ _ Hs) as Hsin.
      rewrite Forall_forall in *. intros r Hr.
      specialize (Hsin r Hr). unfold diabetes_group in Hsin.
      now apply filter_In in Hsin.
    - apply select_label_In. }
  set (out := smp ++ nodiabetes_group data) in *.
  destruct (balance_output_shape g data out g' Hb) as [Hlen _].
  destruct (MinMaxScaler.fit (drop_label out)) as [s|] eqn:Hfit.
  2:{ destruct out as [|r out']; [simpl in Hlen; lia|].
      simpl in Hfit.
      destruct (features r) as [|x xs] eqn:Er; [|discriminate].
      exfalso. inversion Hin as [|? ? Hr _]; subst.
      rewrite Forall_forall in Hfeat. now apply (Hfeat r Hr). }
  assert (Hl : length (MinMaxScaler.transform s (drop_label out)) = length out).
  { unfold MinMaxScaler.transform, drop_label. now rewrite !length_map. }
  assert (Hly : length (label_column out)
                = length (MinMaxScaler.transform s (drop_label out))).
  { rewrite Hl. unfold label_column. now rewrite length_map. }
  assert (Hn : 2 <= length (MinMaxScaler.transform s (drop_label out))) by lia.
  destruct (train_test_split_some _ _ Hly Hn)
    as [Xtr [Xte [ytr [yte [Hsplit [_ Hperm]]]]]].
  exists out, g', Xtr, Xte, ytr, yte.
  split; [exact Hb|].
  split; [unfold prepare, MinMaxScaler.fit_transform; now rewrite Hfit|].
  destruct (train_test_split_keeps_pairs _ _ _ _ _ _ Hsplit)
    as [_ [Lte [Ltr _]]].
  rewrite Hl, Hlen in Lte, Ltr.
  split; [exact Lte|]. split; [|exact Hperm].
  destruct (n_test_of_lt (2 * class_count 0 data)); lia.
Qed.

Lemma balance_then_prepare_witness :
  exists out g' X_train X_test y_train y_test,
    balance (H := tape) [4; 1; 0; 7; 2] survey = Some (out, g')
    /\ prepare (H := tape) out = Some (X_train, X_test, y_train, y_test)
    /\ length X_test = n_test_of (2 * class_count 0 survey)
    /\ length X_train + length X_test = 2 * class_count 0 survey
    /\ Permutation (y_test ++ y_train) (label_column out).
Proof.
  apply (@balance_then_prepare tape [4; 1; 0; 7; 2] survey).
  - vm_compute. lia.
  - vm_compute. lia.
  - repeat constructor; discriminate.
Defined.

(** ** Min-max scaling *)

Lemma nth_zip_with {A B C : Type} (f : A -> B -> C) (a : list A) (b : list B)
  (j : nat) (d : C) (da : A) (db : B) :
  j < length a -> j < length b ->
  nth j (zip_with f a b) d = f (nth j a da) (nth j b db).
Proof.
  revert a b. induction j as [|j IH]; intros [|x a] [|z b] Ha Hb;
    simpl in *; try lia; auto.
  apply IH; lia.
Qed.

Lemma fold_zip_with_length (f : Q -> Q -> Q) (w : nat)
  (rows : list (list Q)) (row0 : list Q) :
  Forall (fun r => length r = w) rows -> length row0 = w ->
  length (fold_left (zip_with f) rows row0) = w.
Proof.
  intros Hr. revert row0. induction Hr as [|r rows Hlr _ IH]; intros row0 H0;
    simpl; auto.
  apply IH. rewrite length_zip_with; congruence.
Qed.

Lemma scale_min_length (s : MinMaxScaler.t) (w : nat) :
  length (MinMaxScaler.data_min_ s) = w ->
  length (MinMaxScaler.data_max_ s) = w ->
  length (MinMaxScaler.scale_ s) = w /\ length (MinMaxScaler.min_ s) = w.
Proof.
  intros Hlo Hhi.
  assert (Hsc : length (MinMaxScaler.scale_ s) = w).
  { unfold MinMaxScaler.scale_. rewrite length_zip_with; congruence. }
  split; [exact Hsc|].
  unfold MinMaxScaler.min_. rewrite length_zip_with; congruence.
Qed.

(** The cells of a transformed row. *)
Lemma transform_row_nth (s : MinMaxScaler.t) (r : list Q) (w j : nat) :
  length (MinMaxScaler.data_min_ s) = w ->
  length (MinMaxScaler.data_max_ s) = w ->
  length r = w -> j < w ->
  length (MinMaxScaler.transform_row s r) = w
  /\ nth j (MinMaxScaler.transform_row s r) 0%Q
     = scaled_cell (nth j (MinMaxScaler.data_min_ s) 0%Q)
                   (nth j (MinMaxScaler.data_max_ s) 0%Q)
                   (nth j r 0%Q).
Proof.
  intros Hlo Hhi Hr Hj.
  destruct (scale_min_length s w Hlo Hhi) as [Hsc Hmn].
  assert (Hc : length (combine (MinMaxScaler.scale_ s) (MinMaxScaler.min_ s)) = w).
  { rewrite length_combine. lia. }
  unfold MinMaxScaler.transform_row. split.
  - rewrite length_zip_with; congruence.
  - rewrite (nth_zip_with _ r _ j 0%Q 0%Q (0%Q, 0%Q)) by lia.
    rewrite combine_nth by congruence. simpl.
    unfold MinMaxScaler.min_.
    rewrite (nth_zip_with _ _ _ j 0%Q 0%Q 0%Q) by lia.
    unfold MinMaxScaler.scale_.
    rewrite (nth_zip_with _ _ _ j 0%Q 0%Q 0%Q) by lia.
    reflexivity.
Qed.

(** ** Column selection *)

Lemma index_of_Some (name : string) (columns : list string) (j : nat) :
  index_of name columns = Some j ->
  j < length columns /\ nth_error columns j = Some name.
Proof.
  revert j. induction columns as [|c columns IH]; intros j Hj; simpl in *.
  - discriminate.
  - destruct (String.eqb name c) eqn:E.
    + injection Hj as <-. apply String.eqb_eq in E. subst. simpl.
      split; [lia|reflexivity].
    + destruct (index_of name columns) as [k|]; [|discriminate].
      injection Hj as <-. destruct (IH k eq_refl) as [Hk Hn]. simpl.
      split; [now apply -> Nat.succ_lt_mono|exact Hn].
Qed.

Lemma index_of_None (name : string) (columns : list string) :
  index_of name columns = None <-> ~ In name columns.
Proof.
  induction columns as [|c columns IH]; simpl.
  - split; auto.
  - destruct (String.eqb name c) eqn:E.
    + apply String.eqb_eq in E. subst. split; [discriminate|].
      intros Hn. exfalso. apply Hn. now left.
    + apply String.eqb_neq in E.
      destruct (index_of name columns) as [k|]; simpl.
      * split; [discriminate|]. intros Hn. exfalso.
        assert (Hk : Some k <> None) by discriminate.
        apply Hk. apply IH. intros Hin. apply Hn. now right.
      * split; [|reflexivity]. intros _ [Hc|Hin]; [congruence|].
        now apply (proj1 IH).
Qed.

Lemma get_locs_None (names columns : list string) :
  get_locs names columns = None
  <-> exists name, In name names /\ ~ In name columns.
Proof.
  induction names as [|n names IH]; simpl.
  - split; [discriminate|]. intros [name [[] _]].
  - destruct (index_of n columns) as [j|] eqn:Ej.
    + destruct (get_locs names columns) as [js|].
      * split; [discriminate|]. intros [name [[<-|Hin] Hn]].
        -- apply index_of_None in Hn. congruence.
        -- assert (Hk : Some js <> None) by discriminate.
           exfalso. apply Hk. apply IH. now exists name.
      * split; [|reflexivity]. intros _.
        destruct (proj1 IH eq_refl) as [name [Hin Hn]].
        exists name. split; [now right|exact Hn].
    + split; [|reflexivity]. intros _. exists n. split; [now left|].
      now apply index_of_None.
Qed.

Lemma get_locs_Some (names columns : list string) (js : list nat) :
  get_locs names columns = Some js ->
  Forall2 (fun name j => j < length columns /\ nth_error columns j = Some name)
          names js.
Proof.
  revert js. induction names as [|n names IH]; simpl; intros js Hjs.
  - injection Hjs as <-. constructor.
  - destruct (index_of n columns) as [j|] eqn:Ej; [|discriminate].
    destruct (get_locs names columns) as [ks|]; [|discriminate].
    injection Hjs as <-. constructor; auto. now apply index_of_Some.
Qed.

(** X9. Selecting columns by name raises exactly when one of the names is
    not a column; otherwise the result has the rows of the frame, one
    cell per requested name, and each cell is the frame's cell in the
    column of that name. *)
Theorem select_columns_spec (columns names : list string) (X : list (list Q)) :
  (select_columns columns names X = None
   <-> exists name, In name names /\ ~ In name columns)
  /\ forall X_sub, select_columns columns names X = Some X_sub ->
       length X_sub = length X
       /\ Forall (fun row => length row = length names) X_sub
       /\ forall i k name, nth_error names k = Some name ->
            exists j, nth_error columns j = Some name
                      /\ nth k (nth i X_sub []) 0%Q = nth j (nth i X []) 0%Q.
Proof.
  unfold select_columns. split.
  - rewrite <- get_locs_None.
    destruct (get_locs names columns); split; auto; discriminate.
  - intros X_sub Hs.
    destruct (get_locs names columns) as [js|] eqn:Ej; [|discriminate].
    injection Hs as <-.
    pose proof (get_locs_Some _ _ _ Ej) as Hf.
    pose proof (Forall2_length Hf) as Hl.
    split; [apply length_map|]. split.
    + apply Forall_forall. intros row Hin. apply in_map_iff in Hin.
      destruct Hin as [r [<- _]]. unfold select_cells.
      now rewrite length_map.
    + intros i k name Hk.
      assert (Hkl : k < length names) by (apply nth_error_Some; congruence).
      destruct (nth_error js k) as [j|] eqn:Ejk.
      2:{ apply nth_error_None in Ejk. lia. }
      exists j. split.
      * clear - Hf Hk Ejk. revert k Hk Ejk.
        induction Hf as [|n j0 names js [_ Hn] _ IH]; intros [|k] Hk Ejk;
          simpl in *; try discriminate.
        -- congruence.
        -- now apply (IH k).
      * destruct (Nat.lt_ge_cases i (length X)) as [Hi|Hi].
        -- rewrite (nth_indep _ [] (select_cells js [])) by (rewrite length_map; lia).
           rewrite (map_nth (select_cells js)). unfold select_cells.
           rewrite (nth_indep _ 0%Q (nth 0 (nth i X []) 0%Q))
             by (rewrite length_map; lia).
           rewrite (map_nth (fun j1 => nth j1 (nth i X []) 0%Q) js 0 k).
           now rewrite (nth_error_nth _ _ 0 Ejk).
        -- rewrite (nth_overflow (map (select_cells js) X) [])
             by (rewrite length_map; lia).
           rewrite (nth_overflow X []) by lia.
           now destruct k, j.
Qed.

Lemma select_columns_spec_witness :
  exists j, nth_error survey_columns j = Some "BMI"%string
            /\ nth 1 (nth 0
                 (match select_columns survey_columns risk_factors survey_X with
                  | Some X_sub => X_sub
                  | None => []
                  end) []) 0%Q
               = nth j (nth 0 survey_X []) 0%Q.
Proof.
  apply (proj2 (select_columns_spec survey_columns risk_factors survey_X)
               _ eq_refl).
  reflexivity.
Defined.

Lemma zip_with_map_same {A B C D : Type} (f : B -> C -> D)
  (g : A -> B) (h : A -> C) (js : list A) :
  zip_with f (map g js) (map h js) = map (fun j => f (g j) (h j)) js.
Proof. induction js as [|j js IH]; simpl; congruence. Qed.

Lemma select_zip_with (f : Q -> Q -> Q) (js : list nat) (a b : list Q) (w : nat) :
  Forall (fun j => j < w) js -> length a = w -> length b = w ->
  select_cells js (zip_with f a b)
  = zip_with f (select_cells js a) (select_cells js b).
Proof.
  intros Hjs Ha Hb. unfold select_cells. rewrite zip_with_map_same.
  apply map_ext_in. intros j Hj. rewrite Forall_forall in Hjs.
  apply nth_zip_with; rewrite ?Ha, ?Hb; auto.
Qed.

Lemma fold_select (f : Q -> Q -> Q) (js : list nat) (w : nat)
  (rows : list (list Q)) (row0 : list Q) :
  Forall (fun j => j < w) js ->
  Forall (fun r => length r = w) rows -> length row0 = w ->
  fold_left (zip_with f) (map (select_cells js) rows) (select_cells js row0)
  = select_cells js (fold_left (zip_with f) rows row0).
Proof.
  intros Hjs Hr. revert row0.
  induction Hr as [|r rows Hlr _ IH]; intros row0 H0; simpl; auto.
  rewrite <- (select_zip_with f js row0 r w) by auto.
  apply IH. rewrite length_zip_with; congruence.
Qed.

Lemma select_cells_nth (js : list nat) (l : list Q) (k : nat) :
  k < length js ->
  nth k (select_cells js l) 0%Q = nth (nth k js 0) l 0%Q.
Proof.
  intros Hk. unfold select_cells.
  rewrite (nth_indep _ 0%Q (nth 0 l 0%Q)) by (rewrite length_map; lia).
  apply (map_nth (fun j => nth j l 0%Q)).
Qed.

(** Scaling a selection of columns gives the selection of the scaled
    columns. *)
Lemma transform_row_select (s : MinMaxScaler.t) (js : list nat)
  (r : list Q) (w : nat) :
  Forall (fun j => j < w) js ->
  length (MinMaxScaler.data_min_ s) = w ->
  length (MinMaxScaler.data_max_ s) = w ->
  length r = w ->
  MinMaxScaler.transform_row
    (MinMaxScaler.mk (select_cells js (MinMaxScaler.data_min_ s))
                     (select_cells js (MinMaxScaler.data_max_ s)))
    (select_cells js r)
  = select_cells js (MinMaxScaler.transform_row s r).
Proof.
  intros Hjs Hlo Hhi Hr.
  set (s' := MinMaxScaler.mk (select_cells js (MinMaxScaler.data_min_ s))
                             (select_cells js (MinMaxScaler.data_max_ s))).
  assert (Hlo' : length (MinMaxScaler.data_min_ s') = length js)
    by (simpl; unfold select_cells; apply length_map).
  assert (Hhi' : length (MinMaxScaler.data_max_ s') = length js)
    by (simpl; unfold select_cells; apply length_map).
  assert (Hr' : length (select_cells js r) = length js)
    by (unfold select_cells; apply length_map).
  destruct (Nat.eq_dec (length js) 0) as [Hz|Hnz].
  { apply length_zero_iff_nil in Hz. subst js. reflexivity. }
  assert (Hpos : 0 < length js) by lia.
  apply (nth_ext _ _ 0%Q 0%Q).
  - destruct (transform_row_nth s' (select_cells js r) (length js) 0
                Hlo' Hhi' Hr' Hpos) as [-> _].
    unfold select_cells. now rewrite length_map.
  - intros k Hk.
    destruct (transform_row_nth s' (select_cells js r) (length js) 0
                Hlo' Hhi' Hr' Hpos) as [Hlen _].
    rewrite Hlen in Hk.
    destruct (transform_row_nth s' (select_cells js r) (length js) k
                Hlo' Hhi' Hr' Hk) as [_ ->].
    unfold s'. cbn [MinMaxScaler.data_min_ MinMaxScaler.data_max_].
    rewrite !select_cells_nth by exact Hk.
    assert (Hj : nth k js 0 < w).
    { rewrite Forall_forall in Hjs. apply Hjs. now apply nth_In. }
    destruct (transform_row_nth s r w (nth k js 0) Hlo Hhi Hr Hj) as [_ ->].
    reflexivity.
Qed.

(** X10. Lines 288-289 against line 165: scaling the twelve selected columns
    gives the same numbers as selecting those columns from the scaled
    full matrix, because the scaler works column by column. *)
Theorem X_sub_sc_is_selection_of_X_os_sc
  (columns : list string) (X_os : list (list Q)) :
  Forall (fun row => length row = length columns) X_os ->
  X_sub_sc columns X_os
  = match MinMaxScaler.fit_transform X_os with
    | Some X_os_sc => select_columns columns risk_factors X_os_sc
    | None => None
    end.
Proof.
  intros Hrect. unfold X_sub_sc, select_columns.
  destruct (get_locs risk_factors columns) as [js|] eqn:Ej.
  2:{ now destruct (MinMaxScaler.fit_transform X_os). }
  pose proof (get_locs_Some _ _ _ Ej) as Hf.
  assert (Hjs : Forall (fun j => j < length columns) js).
  { clear Ej. induction Hf as [|n j ns js' [Hj _] _ IH]; constructor; auto. }
  assert (Hl12 : length js = 12).
  { symmetry. apply (Forall2_length Hf). }
  destruct X_os as [|row0 rows]; [reflexivity|].
  inversion Hrect as [|? ? H0 Hrows]; subst.
  assert (Hcols : length columns <> 0).
  { destruct js as [|j js']; [discriminate|].
    inversion Hjs; subst. lia. }
  unfold MinMaxScaler.fit_transform. simpl map. simpl MinMaxScaler.fit.
  replace (length (select_cells js row0) =? 0) with false
    by (symmetry; apply Nat.eqb_neq; unfold select_cells;
        rewrite length_map; lia).
  replace (length row0 =? 0) with false
    by (symmetry; apply Nat.eqb_neq; congruence).
  rewrite !(fold_select _ js (length columns)) by auto.
  f_equal. unfold MinMaxScaler.transform.
  change (select_cells js row0 :: map (select_cells js) rows)
    with (map (select_cells js) (row0 :: rows)).
  rewrite !map_map.
  apply map_ext_in. intros r Hr.
  apply (transform_row_select
           (MinMaxScaler.mk (fold_left (zip_with Qmin) rows row0)
                            (fold_left (zip_with Qmax) rows row0))
           js r (length columns)); auto.
  - simpl. now apply fold_zip_with_length.
  - simpl. now apply fold_zip_with_length.
  - rewrite Forall_forall in Hrect. now apply Hrect.
Qed.

Lemma X_sub_sc_is_selection_of_X_os_sc_witness :
  X_sub_sc survey_columns survey_X
  = match MinMaxScaler.fit_transform survey_X with
    | Some X_os_sc => select_columns survey_columns risk_factors X_os_sc
    | None => None
    end.
Proof.
  apply (X_sub_sc_is_selection_of_X_os_sc survey_columns survey_X).
  repeat constructor.
Defined.

(** ** The confusion matrix: shape and totals *)

Lemma insert_label_In (c x : Z) (ls : list Z) :
  In x (Metrics.insert_label c ls) <-> x = c \/ In x ls.
Proof.
  induction ls as [|l ls IH]; simpl.
  - intuition.
  - destruct (Z.compare_spec c l) as [E|E|E]; simpl.
    + subst. intuition.
    + intuition.
    + rewrite IH. intuition.
Qed.

Lemma insert_label_sorted (c : Z) (ls : list Z) :
  StronglySorted Z.lt ls -> StronglySorted Z.lt (Metrics.insert_label c ls).
Proof.
  induction 1 as [|l ls Hs IH Hl]; simpl.
  - repeat constructor.
  - destruct (Z.compare_spec c l) as [E|E|E].
    + now constructor.
    + constructor; [now constructor|].
      constructor; [exact E|].
      eapply Forall_impl; [|exact Hl]. simpl. intros; lia.
    + constructor; [exact IH|].
      apply Forall_forall. intros x Hx. apply insert_label_In in Hx.
      destruct Hx as [->|Hx]; [exact E|].
      rewrite Forall_forall in Hl. now apply Hl.
Qed.

Lemma unique_labels_In (x : Z) (ys : list Z) :
  In x (Metrics.unique_labels ys) <-> In x ys.
Proof.
  unfold Metrics.unique_labels. induction ys as [|y ys IH]; simpl.
  - reflexivity.
  - rewrite insert_label_In, IH. intuition.
Qed.

Lemma unique_labels_sorted (ys : list Z) :
  StronglySorted Z.lt (Metrics.unique_labels ys).
Proof.
  unfold Metrics.unique_labels. induction ys as [|y ys IH]; simpl.
  - constructor.
  - now apply insert_label_sorted.
Qed.

Lemma StronglySorted_lt_NoDup (ls : list Z) :
  StronglySorted Z.lt ls -> NoDup ls.
Proof.
  induction 1 as [|l ls _ IH Hl]; constructor; auto.
  intros Hin. rewrite Forall_forall in Hl. specialize (Hl l Hin). lia.
Qed.

Lemma list_sum_map_add {A : Type} (f g : A -> nat) (l : list A) :
  list_sum (map (fun x => f x + g x) l)
  = list_sum (map f l) + list_sum (map g l).
Proof. induction l as [|x l IH]; simpl; lia. Qed.

Lemma list_sum_map_zero {A : Type} (l : list A) :
  list_sum (map (fun _ => 0) l) = 0.
Proof. induction l as [|x l IH]; simpl; auto. Qed.

Lemma indicator_sum (a : Z) (L : list Z) :
  NoDup L -> In a L ->
  list_sum (map (fun l => if (a =? l)%Z then 1 else 0) L) = 1.
Proof.
  induction 1 as [|l L Hl Hnd IH]; intros Hin; [contradiction|]. simpl.
  destruct Hin as [->|Hin].
  - rewrite Z.eqb_refl.
    rewrite (map_ext_in _ (fun _ => 0)), list_sum_map_zero; [reflexivity|].
    intros x Hx. destruct (Z.eqb_spec a x); [subst; contradiction|reflexivity].
  - destruct (Z.eqb_spec a l); [subst; contradiction|]. now rewrite IH.
Qed.

Lemma count_pair_cons (a b x z : Z) (pairs : list (Z * Z)) :
  Metrics.count_pair a b ((x, z) :: pairs)
  = (if (x =? a)%Z && (z =? b)%Z then 1 else 0) + Metrics.count_pair a b pairs.
Proof.
  unfold Metrics.count_pair. simpl.
  destruct ((x =? a)%Z && (z =? b)%Z); reflexivity.
Qed.

Lemma cell_indicator (x z : Z) (L : list Z) :
  NoDup L -> In x L -> In z L ->
  list_sum (map (fun a =>
             list_sum (map (fun b => if (x =? a)%Z && (z =? b)%Z then 1 else 0)
                           L)) L) = 1.
Proof.
  intros Hnd Hx Hz.
  rewrite (map_ext _ (fun a => if (x =? a)%Z then 1 else 0)).
  - now apply indicator_sum.
  - intros a. destruct (x =? a)%Z; simpl.
    + now apply indicator_sum.
    + apply list_sum_map_zero.
Qed.

(** Every sample whose two labels are among [L] falls in exactly one
    cell of the table indexed by [L]. *)
Lemma cells_sum (L : list Z) (pairs : list (Z * Z)) :
  NoDup L ->
  Forall (fun p => In (fst p) L /\ In (snd p) L) pairs ->
  list_sum (map (fun a => list_sum (map (fun b => Metrics.count_pair a b pairs) L)) L)
  = length pairs.
Proof.
  intros Hnd. induction 1 as [|[x z] pairs [Hx Hz] _ IH].
  - rewrite (map_ext _ (fun _ => 0)); [apply list_sum_map_zero|].
    intros a. apply list_sum_map_zero.
  - simpl in Hx, Hz.
    rewrite (map_ext _
      (fun a =>
         list_sum (map (fun b => if (x =? a)%Z && (z =? b)%Z then 1 else 0) L)
         + list_sum (map (fun b => Metrics.count_pair a b pairs) L))).
    + rewrite list_sum_map_add, (cell_indicator x z L Hnd Hx Hz), IH.
      reflexivity.
    + intros a. rewrite <- list_sum_map_add. f_equal.
      apply map_ext. intros b. apply count_pair_cons.
Qed.

(** X11. The confusion matrix is refused exactly when the predictions and
    the labels differ in number or there is no sample at all; otherwise
    it is square, one row and one column per label that occurs, and its
    cells add up to the number of samples. *)
Theorem conf_mat_totals (y_test : list Z) (y_pred : list Q) :
  (conf_mat y_test y_pred = None
   <-> length y_test <> length y_pred \/ y_test = [])
  /\ forall m, conf_mat y_test y_pred = Some m ->
       length m
       = length (Metrics.unique_labels (y_test ++ map np_round y_pred))
       /\ Forall (fun row => length row = length m) m
       /\ total m = length y_test.
Proof.
  unfold conf_mat, Metrics.confusion_matrix. rewrite length_map.
  destruct (Nat.eqb_spec (length y_test) (length y_pred)) as [El|Hne].
  - destruct y_test as [|c0 ys] eqn:Ey.
    { split; [split; auto|discriminate]. }
    rewrite <- Ey in *.
    split.
    { split; [discriminate|]. intros [Hne|Hnil]; [contradiction|].
      rewrite Ey in Hnil. discriminate. }
    intros m Hm. injection Hm as <-.
    set (L := Metrics.unique_labels (y_test ++ map np_round y_pred)).
    split; [apply length_map|]. split.
    + apply Forall_forall. intros row Hin. apply in_map_iff in Hin.
      destruct Hin as [a [<- _]]. now rewrite !length_map.
    + unfold total. rewrite map_map.
      rewrite cells_sum.
      * rewrite length_combine, length_map. lia.
      * apply StronglySorted_lt_NoDup, unique_labels_sorted.
      * apply Forall_forall. intros [x z] Hin. simpl.
        split; apply unique_labels_In, in_or_app.
        -- left. eapply in_combine_l; eauto.
        -- right. eapply in_combine_r; eauto.
  - split; [split; auto|]. discriminate.
Qed.

Lemma conf_mat_totals_witness :
  length [[2; 0]; [0; 2]]
  = length (Metrics.unique_labels
              ([1; 0; 0; 1]%Z
               ++ map np_round [9 # 10; 2 # 10; 4 # 10; 8 # 10]%Q))
  /\ Forall (fun row => length row = length [[2; 0]; [0; 2]]) [[2; 0]; [0; 2]]
  /\ total [[2; 0]; [0; 2]] = length [1; 0; 0; 1]%Z.
Proof.
  apply (proj2 (conf_mat_totals [1; 0; 0; 1]%Z
                  [9 # 10; 2 # 10; 4 # 10; 8 # 10]%Q)).
  reflexivity.
Defined.

(** ** Rounding *)

(** X12. [np.round] returns a nearest integer: it is never more than one
    half away, it is even whenever it is exactly one half away, and it
    leaves integers alone. *)
Theorem np_round_nearest (x : Q) (n : Z) :
  (Qabs (x - inject_Z (np_round x)) <= 1 # 2)%Q
  /\ ((Qabs (x - inject_Z (np_round x)) == 1 # 2)%Q ->
      Z.even (np_round x) = true)
  /\ np_round (inject_Z n) = n.
Proof.
  pose proof (Qfloor_le x) as Hlo.
  pose proof (Qlt_floor x) as Hhi.
  rewrite inject_Z_plus in Hhi. change (inject_Z 1) with 1%Q in Hhi.
  split; [|split].
  - unfold np_round.
    destruct (Qcompare_spec (x - inject_Z (Qfloor x)) (1 # 2)) as [E|E|E].
    + apply Qabs_Qle_condition.
      destruct (Z.even (Qfloor x));
        rewrite ?inject_Z_plus; change (inject_Z 1) with 1%Q; lra.
    + apply Qabs_Qle_condition. lra.
    + apply Qabs_Qle_condition. rewrite inject_Z_plus.
      change (inject_Z 1) with 1%Q. lra.
  - unfold np_round.
    destruct (Qcompare_spec (x - inject_Z (Qfloor x)) (1 # 2)) as [E|E|E].
    + intros _. destruct (Z.even (Qfloor x)) eqn:Ev; [exact Ev|].
      rewrite Z.add_1_r, Z.even_succ, <- Z.negb_even, Ev. reflexivity.
    + intros Habs. exfalso.
      rewrite Qabs_pos in Habs by lra. lra.
    + intros Habs. exfalso. rewrite inject_Z_plus in Habs.
      change (inject_Z 1) with 1%Q in Habs.
      rewrite Qabs_neg in Habs by lra. lra.
  - unfold np_round. rewrite Qfloor_Z.
    replace (inject_Z n - inject_Z n ?= 1 # 2)%Q with Lt; [reflexivity|].
    symmetry. apply Qlt_alt.
    setoid_replace (inject_Z n - inject_Z n)%Q with 0%Q by ring.
    reflexivity.
Qed.

Lemma np_round_nearest_witness :
  Z.even (np_round (5 # 2)) = true.
Proof.
  apply (proj1 (proj2 (np_round_nearest (5 # 2) 0))).
  reflexivity.
Defined.

(** ** The model factory *)

Lemma hp_Int_in_range (hp : HyperParameters) (name : string) :
  (forall v, hp_lookup name hp = Some v -> in_Int_range 32 512 32 v) ->
  in_Int_range 32 512 32 (hp_Int hp name 32 512 32).
Proof.
  intros Hv. unfold hp_Int. destruct (hp_lookup name hp) as [v|].
  - now apply Hv.
  - unfold in_Int_range. simpl. split; [lia|reflexivity].
Qed.

Lemma removelast_app_singleton {A : Type} (l : list A) (x : A) :
  removelast (l ++ [x]) = l /\ last (l ++ [x]) x = x.
Proof.
  split; [apply removelast_last|apply last_last].
Qed.

(** X13. The network [build_model] returns: an input layer, [n_layers]
    hidden layers and a single sigmoid output unit, every other layer
    being a relu layer; with the trial's values inside the declared
    ranges it has three or four layers, each of the relu layers of a
    width between 32 and 512 that is a multiple of 32. *)
Theorem build_model_shape (hp : HyperParameters) :
  length (Keras.layers (build_model hp))
  = 2 + Z.to_nat (hp_Int hp "n_layers" 1 2 1)
  /\ last (Keras.layers (build_model hp)) (Keras.mkDense 1 Keras.sigmoid)
     = Keras.mkDense 1 Keras.sigmoid
  /\ Forall (fun d => Keras.activation d = Keras.relu)
            (removelast (Keras.layers (build_model hp)))
  /\ ((forall v, hp_lookup "n_layers" hp = Some v -> (1 <= v <= 2)%Z) ->
      3 <= length (Keras.layers (build_model hp)) <= 4)
  /\ ((forall name v, hp_lookup name hp = Some v ->
         name = "n_layers"%string \/ in_Int_range 32 512 32 v) ->
      Forall (fun d => in_Int_range 32 512 32 (Keras.units d))
             (removelast (Keras.layers (build_model hp)))).
Proof.
  unfold build_model. cbn [Keras.layers].
  set (n := Z.to_nat (hp_Int hp "n_layers" 1 2 1)).
  set (hidden := map (fun i => Keras.mkDense (hp_Int hp (layer_name i) 32 512 32)
                                             Keras.relu) (seq 0 n)).
  rewrite app_assoc.
  destruct (removelast_app_singleton
              ([Keras.mkDense (hp_Int hp "input_units" 32 512 32) Keras.relu]
                 ++ hidden) (Keras.mkDense 1 Keras.sigmoid)) as [-> ->].
  assert (Hlen : length (([Keras.mkDense (hp_Int hp "input_units" 32 512 32)
                                         Keras.relu] ++ hidden)
                         ++ [Keras.mkDense 1 Keras.sigmoid]) = 2 + n).
  { rewrite !length_app. unfold hidden. rewrite length_map, length_seq.
    simpl. lia. }
  split; [exact Hlen|]. split; [reflexivity|]. split; [|split].
  - constructor; [reflexivity|]. unfold hidden.
    apply Forall_forall. intros d Hd. apply in_map_iff in Hd.
    now destruct Hd as [i [<- _]].
  - intros Hn. rewrite Hlen. unfold n, hp_Int.
    destruct (hp_lookup "n_layers" hp) as [v|]; [|simpl; lia].
    specialize (Hn v eq_refl). lia.
  - intros Hv. constructor.
    + simpl. apply hp_Int_in_range. intros v Hl.
      destruct (Hv _ _ Hl) as [E|Hr]; [discriminate E|exact Hr].
    + unfold hidden. apply Forall_forall. intros d Hd.
      apply in_map_iff in Hd. destruct Hd as [i [<- _]]. simpl.
      apply hp_Int_in_range. intros v Hl.
      destruct (Hv _ _ Hl) as [E|Hr]; [|exact Hr].
      unfold layer_name in E. simpl in E. discriminate E.
Qed.

Lemma build_model_shape_witness :
  3 <= length (Keras.layers
                 (build_model [("input_units", 64); ("n_layers", 2);
                               ("layer_0", 128)]%string%Z)) <= 4.
Proof.
  apply (proj1 (proj2 (proj2 (proj2
           (build_model_shape [("input_units", 64); ("n_layers", 2);
                               ("layer_0", 128)]%string%Z))))).
  intros v Hv. simpl in Hv. injection Hv as <-. lia.
Defined.

(** X14. [build_model] reads [layer_i] for [i < n_layers] only: two trials
    that agree on [input_units], on [n_layers] and on those widths
    build the same network, whatever else they hold. *)
Theorem build_model_reads_used_layers_only (hp hp' : HyperParameters) :
  hp_lookup "input_units" hp = hp_lookup "input_units" hp' ->
  hp_lookup "n_layers" hp = hp_lookup "n_layers" hp' ->
  (forall i, (Z.of_nat i < hp_Int hp "n_layers" 1 2 1)%Z ->
             hp_lookup (layer_name i) hp = hp_lookup (layer_name i) hp') ->
  build_model hp = build_model hp'.
Proof.
  intros Hin Hn Hl. unfold build_model, hp_Int in *.
  rewrite <- Hin, <- Hn. f_equal. f_equal. f_equal.
  apply map_ext_in. intros i Hi. apply in_seq in Hi.
  rewrite (Hl i); [reflexivity|].
  destruct (hp_lookup "n_layers" hp) as [v|]; lia.
Qed.

Lemma build_model_reads_used_layers_only_witness :
  build_model [("input_units", 64); ("n_layers", 1); ("layer_0", 128);
               ("layer_1", 256)]%string%Z
  = build_model [("layer_1", 480); ("n_layers", 1); ("layer_0", 128);
                 ("input_units", 64)]%string%Z.
Proof.
  apply build_model_reads_used_layers_only.
  - reflexivity.
  - reflexivity.
  - intros [|i] Hi; [reflexivity|]. exfalso.
    change (hp_Int _ "n_layers" 1 2 1) with 1%Z in Hi. lia.
Defined.

(** ** Permutation importance of a feature the scorer ignores *)

Lemma importance_nth `{RandomState}
  (score_func : list (list Q) -> list Z -> Q)
  (n_iter : nat) (seed : Z) (X : list (list Q)) (y : list Z) (j : nat) :
  1 <= n_iter -> j < width X ->
  exists v,
    nth_error (feature_importances_ score_func n_iter seed X y) j = Some v
    /\ (v == importance_spec score_func n_iter seed X y j)%Q.
Proof.
  intros Hn Hj. eexists. split.
  - unfold feature_importances_, mean_axis0.
    rewrite nth_error_map, nth_error_seq.
    destruct (Nat.ltb_spec j (width X)) as [_|Hge]; [|lia].
    simpl. reflexivity.
  - rewrite column_score_decreases by exact Hj.
    unfold importance_spec. fold (shuffles_of n_iter seed X j).
    apply mean_decreases.
    intros E. apply (f_equal (@length Q)) in E.
    unfold shuffles_of in E. rewrite !length_map in E.
    destruct (shuffle_plan_spec n_iter (RandomState_seed seed)
                (length X) (width X)) as [Hl _].
    rewrite Hl in E. simpl in E. lia.
Qed.

Lemma shuffles_of_Permutation `{RandomState}
  (n_iter : nat) (seed : Z) (X : list (list Q)) (j : nat) :
  j < width X ->
  length (shuffles_of n_iter seed X j) = n_iter
  /\ Forall (fun p => Permutation p (seq 0 (length X)))
            (shuffles_of n_iter seed X j).
Proof.
  intros Hj. unfold shuffles_of.
  destruct (shuffle_plan_spec n_iter (RandomState_seed seed)
              (length X) (width X)) as [Hl Hf].
  split; [now rewrite length_map|].
  apply Forall_forall. intros p Hin.
  apply in_map_iff in Hin. destruct Hin as [pass [<- Hpass]].
  rewrite Forall_forall in Hf. destruct (Hf pass Hpass) as [Hlp Hperm].
  rewrite Forall_forall in Hperm. apply Hperm. apply nth_In. lia.
Qed.

Lemma Qsum_const (b : Q) (l : list Q) :
  Forall (fun s => (s == b)%Q) l ->
  (Qsum l == inject_Z (Z.of_nat (length l)) * b)%Q.
Proof.
  induction 1 as [|s l Hs _ IH].
  - simpl. unfold inject_Z. ring.
  - change (Qsum (s :: l)) with (s + Qsum l)%Q.
    apply Qeq_trans with (b + inject_Z (Z.of_nat (length l)) * b)%Q.
    + apply Qplus_comp; [exact Hs|exact IH].
    + simpl length.
      rewrite Nat2Z.inj_succ, <- Z.add_1_r, inject_Z_plus.
      change (inject_Z 1) with 1%Q. ring.
Qed.

Lemma mean_const (b : Q) (l : list Q) :
  l <> [] -> Forall (fun s => (s == b)%Q) l -> (mean l == b)%Q.
Proof.
  intros Hne Hall. unfold mean. rewrite (Qsum_const b l Hall).
  assert (Hn : ~ (inject_Z (Z.of_nat (length l)) == 0)%Q).
  { destruct l as [|s l]; [congruence|].
    simpl length. rewrite Nat2Z.inj_succ. unfold Qeq, inject_Z. simpl. lia. }
  field. exact Hn.
Qed.

(** X15. A feature whose shuffling leaves the score unchanged gets
    importance 0. *)
Theorem ignored_feature_has_zero_importance `{RandomState}
  (score_func : list (list Q) -> list Z -> Q)
  (n_iter : nat) (seed : Z) (X : list (list Q)) (y : list Z) (j : nat) :
  1 <= n_iter ->
  j < width X ->
  (forall p, Permutation p (seq 0 (length X)) ->
             (score_func (shuffle_column X j p) y == score_func X y)%Q) ->
  exists v,
    nth_error (feature_importances_ score_func n_iter seed X y) j = Some v
    /\ (v == 0)%Q.
Proof.
  intros Hn Hj Hign.
  destruct (importance_nth score_func n_iter seed X y j Hn Hj) as [v [Hv Ev]].
  exists v. split; [exact Hv|]. rewrite Ev. unfold importance_spec.
  destruct (shuffles_of_Permutation n_iter seed X j Hj) as [Hl Hp].
  rewrite (mean_const (score_func X y)).
  - ring.
  - intros E. apply (f_equal (@length Q)) in E.
    rewrite length_map, Hl in E. simpl in E. lia.
  - apply Forall_forall. intros s Hs. apply in_map_iff in Hs.
    destruct Hs as [p [<- Hin]]. apply Hign.
    rewrite Forall_forall in Hp. now apply Hp.
Qed.

Lemma zip_with_map_l {A B C D : Type} (f : B -> C -> D) (h : A -> B)
  (xs : list A) (ys : list C) :
  zip_with (fun a c => f (h a) c) xs ys = zip_with f (map h xs) ys.
Proof.
  revert ys. induction xs as [|x xs IH]; intros [|z ys]; simpl; congruence.
Qed.

Lemma first_feature_score_column (X X' : list (list Q)) (y : list Z) :
  column X' 0 = column X 0 ->
  first_feature_score X' y = first_feature_score X y.
Proof.
  intros Hc. unfold first_feature_score.
  rewrite !(zip_with_map_l
              (fun v c => (v - inject_Z c) * (v - inject_Z c))%Q
              (fun row => nth 0 row 0%Q)).
  fold (column X' 0) (column X 0). now rewrite Hc.
Qed.

Lemma ignored_feature_has_zero_importance_witness :
  exists v,
    nth_error (feature_importances_ (H := tape) first_feature_score 5 1
                 held_out_X held_out_y) 1 = Some v
    /\ (v == 0)%Q.
Proof.
  apply (@ignored_feature_has_zero_importance tape first_feature_score 5 1
           held_out_X held_out_y 1).
  - lia.
  - unfold width. simpl. lia.
  - intros p Hp. rewrite (first_feature_score_column held_out_X).
    + reflexivity.
    + unfold shuffle_column. apply column_zip_set_other; [|discriminate].
      unfold permute. rewrite length_map, (Permutation_length Hp).
      apply length_seq.
Defined.
